(** * First-level workflow helpers of neuroscout-cli

    A shallow embedding of the three pure helper functions nested in
    [create_first_level] (neuroscout_cli/workflows/first_level.py):

    - [get_subs]   : the substitution table handed to the data sink;
    - [sort_copes] : the run/contrast reshape placed before the fixed
                     effects flow;
    - [get_data]   : the per-subject data source.

    Python values are modelled by the types the functions rely on, raised
    exceptions by the left summand of [result]. *)

From Stdlib Require Import List Arith ZArith Lia Bool Ascii String.
From Stdlib Require Import Decimal DecimalNat DecimalString.
From Stdlib Require Import Sorted Permutation.
Import ListNotations.

Open Scope list_scope.
Open Scope string_scope.

(** ** Exceptions and the result type *)

(** What a [ValueError] reports: numpy's two messages (an array built from
    a ragged nesting, a reshape to a shape of another size) and the one of
    [int] on a string that is no integer literal. *)
Inductive value_error : Type :=
| InhomogeneousShape
| CannotReshape (size : nat) (shape : list nat)
| InvalidLiteral (s : string).

Inductive exn : Type :=
| ValueError (why : value_error)
| ZeroDivisionError
| IndexError.

Definition result (T : Type) : Type := (exn + T)%type.

Definition ret {T} (x : T) : result T := inr x.
Definition raise {T} (e : exn) : result T := inl e.

Definition bind {T U} (m : result T) (k : T -> result U) : result U :=
  match m with
  | inl e => inl e
  | inr x => k x
  end.

Declare Scope result_scope.
Delimit Scope result_scope with result.
Notation "x <- m ;; k" := (bind m (fun x => k))
  (at level 61, m at next level, right associativity) : result_scope.

Definition fails {T} (m : result T) : Prop := exists e, m = inl e.

(** ** String formatting *)

Module Fmt.

(** ['%d' % n] for a non-negative integer. *)
Definition d (n : nat) : string := NilEmpty.string_of_uint (Nat.to_uint n).

(** [width] copies of the character ['0']. *)
Fixpoint zeros (width : nat) : string :=
  match width with
  | O => ""
  | S w => String "0" (zeros w)
  end.

(** ['%02d' % n]: the decimal digits, padded on the left with zeros up to
    two characters; longer numbers are left as they are. *)
Definition d02 (n : nat) : string :=
  let s := d n in zeros (2 - String.length s) ++ s.

End Fmt.

(** ** The substitution table *)

Section GetSubs.

Context {Cond : Type}.

(** The eleven pairs appended by one pass through the loop body, for loop
    index [i] and [n = len(conds)]. *)
Definition subs_of_index (n i : nat) : list (string * string) :=
  [ ("_flameo" ++ Fmt.d i ++ "/cope1.", "cope" ++ Fmt.d02 (i + 1) ++ ".");
    ("_flameo" ++ Fmt.d i ++ "/varcope1.", "varcope" ++ Fmt.d02 (i + 1) ++ ".");
    ("_flameo" ++ Fmt.d i ++ "/zstat1.", "zstat" ++ Fmt.d02 (i + 1) ++ ".");
    ("_flameo" ++ Fmt.d i ++ "/tstat1.", "tstat" ++ Fmt.d02 (i + 1) ++ ".");
    ("_flameo" ++ Fmt.d i ++ "/res4d.", "res4d" ++ Fmt.d02 (i + 1) ++ ".");
    ("_warpall" ++ Fmt.d i ++ "/cope1_warp.",
     "cope" ++ Fmt.d02 (i + 1) ++ ".");
    ("_warpall" ++ Fmt.d (n + i) ++ "/varcope1_warp.",
     "varcope" ++ Fmt.d02 (i + 1) ++ ".");
    ("_warpall" ++ Fmt.d (2 * n + i) ++ "/zstat1_warp.",
     "zstat" ++ Fmt.d02 (i + 1) ++ ".");
    ("_warpall" ++ Fmt.d i ++ "/cope1_trans.",
     "cope" ++ Fmt.d02 (i + 1) ++ ".");
    ("_warpall" ++ Fmt.d (n + i) ++ "/varcope1_trans.",
     "varcope" ++ Fmt.d02 (i + 1) ++ ".");
    ("_warpall" ++ Fmt.d (2 * n + i) ++ "/zstat1_trans.",
     "zstat" ++ Fmt.d02 (i + 1) ++ ".") ].

(** [get_subs(subject_id, conds)]: the list starts with the pair for the
    subject directory; the [for] loop over [range(len(conds))] appends its
    pairs at the end of the list built so far. *)
Definition get_subs (subject_id : string) (conds : list Cond)
  : list (string * string) :=
  fold_left (fun subs i => (subs ++ subs_of_index (List.length conds) i)%list)
            (seq 0 (List.length conds))
            [("_subject_id_" ++ subject_id, "")].

End GetSubs.

(** Whether [pat] occurs in [text] ([pat in text], the test behind
    [str.replace]). *)
Fixpoint occurs (pat text : string) : bool :=
  String.prefix pat text ||
  match text with
  | EmptyString => false
  | String _ rest => occurs pat rest
  end.

(** ** Nested lists and arrays *)

(** What numpy does with the scalars of type [A] when it builds an array:
    [same_dtype a b] tells whether [a] and [b], each taken alone, get the
    same dtype; [cast_common l a] is the value that an array built from
    the scalars [l], which are not all of one dtype, holds for [a] after
    the cast to the common dtype (the value [tolist] gives back). *)
Class Scalar (A : Type) : Type := {
  same_dtype : A -> A -> bool;
  cast_common : list A -> A -> A
}.

Section Numpy.

Context {A : Type}.

(** A Python value handed to [sort_copes]: a scalar, or a list of values. *)
#[warnings="-register-all"]
Inductive pyval : Type :=
| Atom (a : A)
| PyList (l : list pyval).

(** The scalars of a nesting, left to right. *)
Fixpoint leaves (v : pyval) : list A :=
  match v with
  | Atom a => [a]
  | PyList l => flat_map leaves l
  end.

Definition shape_eqb (s1 s2 : option (list nat)) : bool :=
  match s1, s2 with
  | Some l1, Some l2 =>
      if list_eq_dec Nat.eq_dec l1 l2 then true else false
  | _, _ => false
  end.

(** The shape numpy discovers for a nesting; [None] when the nesting is
    ragged. *)
Fixpoint np_shape (v : pyval) : option (list nat) :=
  match v with
  | Atom _ => Some []
  | PyList l =>
      match map np_shape l with
      | [] => Some [0]
      | None :: _ => None
      | Some s :: rest =>
          if forallb (shape_eqb (Some s)) rest
          then Some (List.length l :: s)
          else None
      end
  end.

(** An array: its shape and its elements in row-major order. *)
Record ndarray : Type := { shape : list nat; data : list A }.

Context {dtypes : Scalar A}.

(** The values an array holds for the scalars [l] it is built from:
    scalars that all have the dtype of the first are stored as they are,
    others are cast to the common dtype. *)
Definition np_store (l : list A) : list A :=
  match l with
  | [] => []
  | x :: rest =>
      if forallb (same_dtype x) rest then l else map (cast_common l) l
  end.

(** [np.array(v)]; a ragged nesting is refused with a [ValueError]
    (numpy 1.24 and later). *)
Definition np_array (v : pyval) : result ndarray :=
  match np_shape v with
  | Some s => ret {| shape := s; data := np_store (leaves v) |}
  | None => raise (ValueError InhomogeneousShape)
  end.

(** [a.flatten()]: the one-dimensional copy, as the list of its elements. *)
Definition flatten (a : ndarray) : list A := data a.

(** A two-dimensional array, as [reshape] with two extents returns it. *)
Record array2 : Type := { nrows : nat; ncols : nat; elems : list A }.

(** [v.reshape(r, c)] on a one-dimensional array. *)
Definition reshape (v : list A) (r c : nat) : result array2 :=
  if Nat.eqb (r * c) (List.length v)
  then ret {| nrows := r; ncols := c; elems := v |}
  else raise (ValueError (CannotReshape (List.length v) [r; c])).

(** [count] elements of [l], one every [step] positions from its head. *)
Fixpoint stride_take (step count : nat) (l : list A) : list A :=
  match count with
  | O => []
  | S k =>
      match l with
      | [] => []
      | x :: _ => x :: stride_take step k (skipn step l)
      end
  end.

(** [m.T]: the element at row [j], column [i] is the one [m] has at row
    [i], column [j]. *)
Definition T (m : array2) : array2 :=
  {| nrows := ncols m;
     ncols := nrows m;
     elems := flat_map
                (fun j => stride_take (ncols m) (nrows m) (skipn j (elems m)))
                (seq 0 (ncols m)) |}.

(** [m.tolist()]: one list per row. *)
Definition tolist (m : array2) : list (list A) :=
  map (fun i => firstn (ncols m) (skipn (i * ncols m) (elems m)))
      (seq 0 (nrows m)).

(** [int(n / c)] on two lengths. *)
Definition int_div (n c : nat) : result nat :=
  if Nat.eqb c 0 then raise ZeroDivisionError else ret (n / c).

End Numpy.

Arguments pyval : clear implicits.
Arguments ndarray : clear implicits.
Arguments array2 : clear implicits.

(** ** The reshape placed before the fixed-effects flow *)

Section SortCopes.

Context {A Cond : Type} {dtypes : Scalar A}.

Local Open Scope result_scope.

(** [sort_copes(copes, varcopes, contrasts)]. *)
Definition sort_copes (copes varcopes : pyval A) (contrasts : list Cond)
  : result (list (list A) * list (list A) * nat) :=
  (* if not isinstance(copes, list): copes, varcopes = [copes], [varcopes] *)
  let '(copes, varcopes) :=
    match copes with
    | PyList l => (l, varcopes)
    | Atom _ => ([copes], PyList [varcopes])
    end in
  let num_copes := List.length contrasts in
  let n_runs := List.length copes in
  a <- np_array (PyList copes) ;;
  let all_copes := flatten a in
  b <- np_array varcopes ;;
  let all_varcopes := flatten b in
  r <- int_div (List.length all_copes) num_copes ;;
  m <- reshape all_copes r num_copes ;;
  let outcopes := tolist (T m) in
  r' <- int_div (List.length all_varcopes) num_copes ;;
  m' <- reshape all_varcopes r' num_copes ;;
  let outvarcopes := tolist (T m') in
  ret (outcopes, outvarcopes, n_runs).

End SortCopes.

(** A list of rows as a nested Python list. *)
Definition of_rows {A} (rows : list (list A)) : pyval A :=
  PyList (map (fun row => PyList (map Atom row)) rows).

(** [out] is the transpose of the matrix [m] of [R] rows and [C] columns:
    [C] rows of [R] elements, row [i] holding element [i] of every row of
    [m], in the order of the rows. *)
Definition is_transpose {A} (R C : nat) (m out : list (list A)) : Prop :=
  List.length out = C /\
  forall i, i < C ->
    exists row,
      nth_error out i = Some row /\
      List.length row = R /\
      forall r, r < R ->
        exists run, nth_error m r = Some run /\
                    nth_error row r = nth_error run i.

(** ** The data source *)

(** [os.path.join(a, b)] (POSIX): an absolute [b] replaces [a]; otherwise
    [b] follows [a], after a slash unless [a] is empty or ends with one. *)
Fixpoint endswith_slash (s : string) : bool :=
  match s with
  | EmptyString => false
  | String c EmptyString => Ascii.eqb c "/"
  | String _ rest => endswith_slash rest
  end.

Definition startswith_slash (s : string) : bool :=
  match s with
  | String c _ => Ascii.eqb c "/"
  | EmptyString => false
  end.

Definition path_join (a b : string) : string :=
  if startswith_slash b then b
  else if orb (String.eqb a "") (endswith_slash a) then a ++ b
  else a ++ "/" ++ b.

(** [df.groupby(col)]: one group per value of the column, the groups in
    ascending order of that value, the rows of a group in the order of the
    frame. *)
Section GroupBy.

Context {K Row : Type}.
Variable cmp : K -> K -> comparison.
Variable key : Row -> K.

Definition same_key (k : K) (r : Row) : bool :=
  match cmp (key r) k with
  | Eq => true
  | _ => false
  end.

Fixpoint insert_key (k : K) (ks : list K) : list K :=
  match ks with
  | [] => [k]
  | k' :: rest =>
      match cmp k k' with
      | Lt => k :: ks
      | Eq => ks
      | Gt => k' :: insert_key k rest
      end
  end.

Definition sorted_keys (rows : list Row) : list K :=
  fold_right insert_key [] (map key rows).

Definition groupby (rows : list Row) : list (K * list Row) :=
  map (fun k => (k, filter (same_key k) rows)) (sorted_keys rows).

End GroupBy.

Section GetData.

(** The type of the onsets, durations and amplitudes, which the function
    only copies. *)
Context {F : Type}.

(** [int] on a string; [None] when it raises [ValueError]. *)
Variable int : string -> option Z.

(** A row of the event table. *)
Record event : Type := {
  ev_subject : Z;
  ev_run : Z;
  ev_condition : string;
  ev_onset : F;
  ev_duration : F;
  ev_amplitude : F
}.

(** An entry of the run manifest. *)
Record run : Type := {
  number : Z;
  subject : string;
  func_path : string;
  mask_path : string
}.

(** nipype's [Bunch] with the four fields set here. *)
Record Bunch : Type := {
  conditions : list string;
  onsets : list (list F);
  durations : list (list F);
  amplitudes : list (list F)
}.

(** The body of the loop over the conditions of one run: one more entry
    at the end of each of the four lists. *)
Definition add_condition (acc : Bunch) (g : string * list event) : Bunch :=
  let '(c, cond_data) := g in
  {| conditions := (conditions acc ++ [c])%list;
     onsets := (onsets acc ++ [map ev_onset cond_data])%list;
     durations := (durations acc ++ [map ev_duration cond_data])%list;
     amplitudes := (amplitudes acc ++ [map ev_amplitude cond_data])%list |}.

(** The bunch built from the rows of one run. *)
Definition bunch_of_run (run_data : list event) : Bunch :=
  fold_left add_condition
            (groupby String.compare ev_condition run_data)
            {| conditions := []; onsets := []; durations := [];
               amplitudes := [] |}.

(** The body of the loop over the runs of the subject's events. *)
Definition add_run (subject_runs : list Z) (subject_bunches : list Bunch)
                   (g : Z * list event) : list Bunch :=
  let '(r, run_data) := g in
  if existsb (Z.eqb r) subject_runs
  then (subject_bunches ++ [bunch_of_run run_data])%list
  else subject_bunches.

(** [r['subject'] == subject_id] *)
Definition of_subject (subject_id : string) (r : run) : bool :=
  String.eqb (subject r) subject_id.

Local Open Scope result_scope.

(** [get_data(bids_dir, subject_id, event_data, runs)]. *)
Definition get_data (bids_dir subject_id : string)
                    (event_data : list event) (runs : list run)
  : result (list string * string * list Bunch) :=
  sid <- match int subject_id with
         | Some z => ret z
         | None => raise (ValueError (InvalidLiteral subject_id))
         end ;;
  let subject_data := filter (fun e => Z.eqb (ev_subject e) sid) event_data in
  let subject_runs := map number (filter (of_subject subject_id) runs) in
  let subject_bunches :=
    fold_left (add_run subject_runs)
              (groupby Z.compare ev_run subject_data) [] in
  let func := map func_path (filter (of_subject subject_id) runs) in
  let func := map (path_join bids_dir) func in
  let bm := map mask_path (filter (of_subject subject_id) runs) in
  let bm := map (path_join bids_dir) bm in
  bm <- match bm with
        | b :: _ => ret b
        | [] => raise IndexError
        end ;;
  ret (func, bm, subject_bunches).

End GetData.

Arguments event : clear implicits.
Arguments Bunch : clear implicits.

(** [int] on a string of ASCII characters, in base ten: blanks around the
    number are dropped, a sign may come first, and the digits may be
    separated by single underscores; [None] when [int] raises. *)
Definition is_space (c : ascii) : bool :=
  let n := nat_of_ascii c in
  ((9 <=? n)%nat && (n <=? 13)%nat) || ((28 <=? n)%nat && (n <=? 32)%nat).

Fixpoint lstrip (s : string) : string :=
  match s with
  | EmptyString => EmptyString
  | String c rest => if is_space c then lstrip rest else s
  end.

Fixpoint rstrip (s : string) : string :=
  match s with
  | EmptyString => EmptyString
  | String c rest =>
      match rstrip rest with
      | EmptyString => if is_space c then EmptyString else String c EmptyString
      | rest' => String c rest'
      end
  end.

(** The value of digits with single underscores between them, after the
    value [acc] of the digits already read; [after_digit] tells whether
    the character before was a digit. *)
Fixpoint digits_value (s : string) (acc : Z) (after_digit : bool)
  : option Z :=
  match s with
  | EmptyString => if after_digit then Some acc else None
  | String c rest =>
      let n := nat_of_ascii c in
      if ((48 <=? n)%nat && (n <=? 57)%nat)
      then digits_value rest (10 * acc + Z.of_nat (n - 48))%Z true
      else if Ascii.eqb c "_"
           then if after_digit then digits_value rest acc false else None
           else None
  end.

Definition int_of_decimal (s : string) : option Z :=
  match rstrip (lstrip s) with
  | String "+" rest => digits_value rest 0%Z false
  | String "-" rest => option_map Z.opp (digits_value rest 0%Z false)
  | text => digits_value text 0%Z false
  end.

(** ** Python integers as numpy stores them *)

(** The dtype numpy gives to a Python integer taken alone: [int64] when it
    fits, else [uint64] when it fits, else [object]. *)
Inductive int_dtype : Type := Int64 | UInt64 | Object.

Definition dtype_of_int (z : Z) : int_dtype :=
  if ((- 2 ^ 63 <=? z) && (z <? 2 ^ 63))%Z then Int64
  else if ((2 ^ 63 <=? z) && (z <? 2 ^ 64))%Z then UInt64
  else Object.

Definition int_dtype_eqb (d1 d2 : int_dtype) : bool :=
  match d1, d2 with
  | Int64, Int64 | UInt64, UInt64 | Object, Object => true
  | _, _ => false
  end.

(** The integer that the double nearest to [z] is (53 bits of mantissa,
    ties to even), for an integer below 2^64 in absolute value. *)
Definition to_float64 (z : Z) : Z :=
  let n := Z.abs z in
  if (n <? 2 ^ 53)%Z then z
  else
    let e := (Z.log2 n - 52)%Z in
    let q := (n / 2 ^ e)%Z in
    let r := (n mod 2 ^ e)%Z in
    let half := (2 ^ (e - 1))%Z in
    let q' :=
      if (r <? half)%Z then q
      else if (half <? r)%Z then (q + 1)%Z
      else if Z.even q then q else (q + 1)%Z in
    (Z.sgn z * (q' * 2 ^ e))%Z.

(** Integers of different dtypes: with an [object] among them the array
    keeps the Python integers; [int64] with [uint64] gives [float64]. *)
Definition cast_ints (l : list Z) (z : Z) : Z :=
  if existsb (fun x => int_dtype_eqb (dtype_of_int x) Object) l
  then z
  else to_float64 z.

#[export] Instance python_int : Scalar Z := {|
  same_dtype a b := int_dtype_eqb (dtype_of_int a) (dtype_of_int b);
  cast_common := cast_ints
|}.

(** Non-negative Python integers. *)
#[export] Instance python_nat : Scalar nat := {|
  same_dtype a b := same_dtype (Z.of_nat a) (Z.of_nat b);
  cast_common l a := Z.to_nat (cast_common (map Z.of_nat l) (Z.of_nat a))
|}.

(** ** Predicates used in the statements *)

Definition is_digit (c : ascii) : bool :=
  (48 <=? nat_of_ascii c)%nat && (nat_of_ascii c <=? 57)%nat.

Fixpoint all_digits (s : string) : bool :=
  match s with
  | EmptyString => true
  | String c rest => is_digit c && all_digits rest
  end.

(** Whether the character [c] is one of those of [s]. *)
Fixpoint has_char (c : ascii) (s : string) : bool :=
  match s with
  | EmptyString => false
  | String c' rest => Ascii.eqb c c' || has_char c rest
  end.

(** The stems of the published names, in the order in which one pass of
    the loop of [get_subs] uses them. *)
Definition stems : list string :=
  [ "cope"; "varcope"; "zstat"; "tstat"; "res4d";
    "cope"; "varcope"; "zstat"; "cope"; "varcope"; "zstat" ].

(** The published name of a stem for the contrast of 0-based index [i]. *)
Definition stable_name (stem : string) (i : nat) : string :=
  stem ++ Fmt.d02 (i + 1) ++ ".".

(** The table [subs] maps the pattern [pat] to [repl]: it has that pair,
    and no pair that gives [pat] another replacement. *)
Definition maps_to (subs : list (string * string)) (pat repl : string)
  : Prop :=
  In (pat, repl) subs /\ forall r, In (pat, r) subs -> r = repl.

(** Column [j] of a list of rows, and the transpose of a matrix of [C]
    columns, written with list functions only. *)
Definition column {A} (j : nat) (rows : list (list A)) : list A :=
  flat_map (fun row => firstn 1 (skipn j row)) rows.

Definition transpose {A} (C : nat) (rows : list (list A)) : list (list A) :=
  map (fun j => column j rows) (seq 0 C).

(** Every row of [rows] has [C] elements. *)
Definition rows_of_width {A} (C : nat) (rows : list (list A)) : Prop :=
  Forall (fun row => List.length row = C) rows.

(** The brainmask of a result of [get_data], when there is one. *)
Definition brainmask {F} (res : result (list string * string * list (Bunch F)))
  : option string :=
  match res with
  | inr (_, bm, _) => Some bm
  | inl _ => None
  end.

(** The subject bunches of a result of [get_data], when there is one. *)
Definition subject_info {F}
           (res : result (list string * string * list (Bunch F)))
  : option (list (Bunch F)) :=
  match res with
  | inr (_, _, bunches) => Some bunches
  | inl _ => None
  end.

(** The event rows of subject number [sid] in run [r], in table order. *)
Definition rows_of_run {F} (sid r : Z) (event_data : list (event F))
  : list (event F) :=
  filter (fun e => Z.eqb (ev_run e) r)
         (filter (fun e => Z.eqb (ev_subject e) sid) event_data).

(** The runs for which [get_data] builds a bunch: the run numbers of the
    subject's events that the manifest lists for the subject, ascending. *)
Definition bunch_runs {F} (sid : Z) (subject_id : string)
           (event_data : list (event F)) (runs : list run) : list Z :=
  filter (fun r => existsb (Z.eqb r)
                           (map number (filter (of_subject subject_id) runs)))
         (sorted_keys Z.compare ev_run
            (filter (fun e => Z.eqb (ev_subject e) sid) event_data)).

(** Rows and manifest entries for the examples. *)
Definition sample_event (s r : Z) (c : string) (onset : nat) : event nat :=
  {| ev_subject := s; ev_run := r; ev_condition := c;
     ev_onset := onset; ev_duration := 1; ev_amplitude := 1 |}.

Definition sample_run (n : Z) (s f m : string) : run :=
  {| number := n; subject := s; func_path := f; mask_path := m |}.

(** Reading a run of decimal digits back as a number ([int] on a string
    of digits); [None] on the empty string and on any other character. *)
Definition parse_nat (s : string) : option nat :=
  option_map Nat.of_uint (NilZero.uint_of_string s).

(** The five stems of the published names. *)
Definition stem_names : list string :=
  [ "cope"; "varcope"; "zstat"; "tstat"; "res4d" ].

(** A flat buffer cut into [r] rows of [c] elements. *)
Fixpoint chunks {A} (c r : nat) (v : list A) : list (list A) :=
  match r with
  | O => []
  | S r' => firstn c v :: chunks c r' (skipn c v)
  end.

(** The number of top-level items of copes, a scalar counting for one. *)
Definition n_items {A} (copes : pyval A) : nat :=
  match copes with
  | PyList l => List.length l
  | Atom _ => 1
  end.

(** The rows of condition [c], in table order. *)
Definition rows_of_condition {F} (c : string) (rows : list (event F))
  : list (event F) :=
  filter (fun e => String.eqb (ev_condition e) c) rows.

(** A bunch as the model specification needs it: at least one condition,
    no condition twice, one list of onsets, of durations and of
    amplitudes per condition, and for every condition as many durations
    and amplitudes as onsets, and at least one. *)
Definition well_formed_bunch {F} (b : Bunch F) : Prop :=
  conditions b <> [] /\
  NoDup (conditions b) /\
  Forall2 (fun (_ : string) o => o <> []) (conditions b) (onsets b) /\
  Forall2 (fun o d => List.length o = List.length d)
          (onsets b) (durations b) /\
  Forall2 (fun o a => List.length o = List.length a)
          (onsets b) (amplitudes b).

(** A path without two slashes in a row. *)
Definition single_slashes (path : string) : Prop := occurs "//" path = false.

(** Whether run [r] is one of the run numbers that the manifest lists for
    the subject. *)
Definition listed_run (subject_id : string) (runs : list run) (r : Z)
  : bool :=
  existsb (Z.eqb r) (map number (filter (of_subject subject_id) runs)).

(** numpy stores the scalars [l] as they are. *)
Definition stored_unchanged {A} {dtypes : Scalar A} (l : list A) : Prop :=
  np_store l = l.

(** The scalars [l] are all of one dtype. *)
Definition one_dtype {A} {dtypes : Scalar A} (l : list A) : Prop :=
  forall x y, In x l -> In y l -> same_dtype x y = true.

(** * Properties *)

(** ** Strings and decimal numbers *)

Lemma append_cancel_l (p a b : string) : p ++ a = p ++ b -> a = b.
Proof.
  induction p as [|c p IH]; simpl; intros H; [exact H|].
  injection H as H. auto.
Qed.

Lemma has_char_append (c : ascii) (a b : string) :
  has_char c (a ++ b) = has_char c a || has_char c b.
Proof.
  induction a as [|x a IH]; simpl; [reflexivity|].
  rewrite IH. now rewrite orb_assoc.
Qed.

Lemma all_digits_uint (u : uint) :
  all_digits (NilEmpty.string_of_uint u) = true.
Proof. induction u; simpl; auto. Qed.

Lemma all_digits_d (n : nat) : all_digits (Fmt.d n) = true.
Proof. apply all_digits_uint. Qed.

Lemma string_of_uint_inj (u v : uint) :
  NilEmpty.string_of_uint u = NilEmpty.string_of_uint v -> u = v.
Proof.
  intros H.
  assert (E : Some u = Some v)
    by (rewrite <- (NilEmpty.usu u), <- (NilEmpty.usu v); now rewrite H).
  now injection E.
Qed.

Lemma d_inj (n m : nat) : Fmt.d n = Fmt.d m -> n = m.
Proof.
  intros H. apply Unsigned.to_uint_inj. now apply string_of_uint_inj.
Qed.

Lemma all_digits_no_char (c : ascii) (s : string) :
  is_digit c = false -> all_digits s = true -> has_char c s = false.
Proof.
  intros Hc. induction s as [|x s IH]; simpl; [reflexivity|].
  intros H. apply andb_true_iff in H as [Hx Hs].
  rewrite (IH Hs), orb_false_r.
  destruct (Ascii.eqb_spec c x) as [->|]; [congruence|reflexivity].
Qed.

Lemma all_digits_zeros (w : nat) : all_digits (Fmt.zeros w) = true.
Proof. induction w; simpl; auto. Qed.

Lemma all_digits_append (a b : string) :
  all_digits (a ++ b) = all_digits a && all_digits b.
Proof.
  induction a as [|x a IH]; simpl; [reflexivity|].
  now rewrite IH, andb_assoc.
Qed.

Lemma all_digits_d02 (n : nat) : all_digits (Fmt.d02 n) = true.
Proof.
  unfold Fmt.d02. now rewrite all_digits_append, all_digits_zeros, all_digits_d.
Qed.

(** Two runs of digits followed by a character that is no digit: equal
    texts have equal runs. *)
Lemma digits_then_sep (c : ascii) (a b x y : string) :
  is_digit c = false ->
  all_digits a = true -> all_digits b = true ->
  a ++ String c x = b ++ String c y -> a = b /\ x = y.
Proof.
  intros Hc. revert b.
  induction a as [|p a IH]; intros [|q b]; simpl; intros Ha Hb H.
  - injection H as H. auto.
  - injection H as H1 H2. subst q.
    apply andb_true_iff in Hb as [Hb _]. congruence.
  - injection H as H1 H2. subst p.
    apply andb_true_iff in Ha as [Ha _]. congruence.
  - injection H as H1 H2. subst q.
    apply andb_true_iff in Ha as [_ Ha].
    apply andb_true_iff in Hb as [_ Hb].
    destruct (IH b Ha Hb H2) as [-> ->]. auto.
Qed.

(** A pattern that occurs in a text has its first character in it. *)
Lemma prefix_has_char (c : ascii) (p t : string) :
  String.prefix (String c p) t = true -> has_char c t = true.
Proof.
  destruct t as [|x t]; simpl; [discriminate|].
  destruct (ascii_dec c x) as [->|]; [|discriminate].
  intros _. now rewrite Ascii.eqb_refl.
Qed.

Lemma occurs_has_char (c : ascii) (p t : string) :
  occurs (String c p) t = true -> has_char c t = true.
Proof.
  induction t as [|x t IH]; intros H.
  - simpl in H. discriminate.
  - cbn [occurs] in H. apply orb_true_iff in H as [H|H].
    + now apply prefix_has_char in H.
    + simpl. rewrite (IH H). apply orb_true_r.
Qed.

(** ** Lists *)

Lemma fold_left_app_flat_map {X Y} (f : X -> list Y) (l : list X)
      (init : list Y) :
  fold_left (fun acc x => (acc ++ f x)%list) l init
  = (init ++ flat_map f l)%list.
Proof.
  revert init. induction l as [|x l IH]; intros init; simpl.
  - now rewrite app_nil_r.
  - now rewrite IH, app_assoc.
Qed.

Lemma length_blocks {Y} (f : nat -> list Y) (w : nat) :
  (forall j, List.length (f j) = w) ->
  forall n a, List.length (flat_map f (seq a n)) = w * n.
Proof.
  intros Hw. induction n as [|n IH]; intros a; simpl; [lia|].
  rewrite length_app, Hw, IH. lia.
Qed.

(** Blocks of one width laid end to end: the place of element [k] of
    block [i]. *)
Lemma nth_error_blocks {Y} (f : nat -> list Y) (w : nat) :
  (forall j, List.length (f j) = w) ->
  forall n a i k, i < n -> k < w ->
    nth_error (flat_map f (seq a n)) (w * i + k) = nth_error (f (a + i)) k.
Proof.
  intros Hw. induction n as [|n IH]; intros a i k Hi Hk; [lia|].
  simpl. destruct i as [|i].
  - rewrite Nat.mul_0_r, Nat.add_0_l, Nat.add_0_r.
    apply nth_error_app1. now rewrite Hw.
  - rewrite nth_error_app2 by (rewrite Hw; lia).
    rewrite Hw.
    replace (w * S i + k - w) with (w * i + k) by lia.
    rewrite IH by lia. f_equal. f_equal. lia.
Qed.

(** ** The substitution table *)

Section GetSubsFacts.

Context {Cond : Type}.
Implicit Types (conds : list Cond) (subject_id : string).

(** The loop of [get_subs] lays the blocks of the indices end to end after
    the pair of the subject. *)
Lemma get_subs_blocks subject_id conds :
  get_subs subject_id conds
  = ("_subject_id_" ++ subject_id, "")
      :: flat_map (subs_of_index (List.length conds))
                  (seq 0 (List.length conds)).
Proof. unfold get_subs. now rewrite fold_left_app_flat_map. Qed.

Lemma get_subs_length subject_id conds :
  List.length (get_subs subject_id conds) = 1 + 11 * List.length conds.
Proof.
  rewrite get_subs_blocks. cbn [List.length]. f_equal.
  now rewrite (length_blocks _ 11).
Qed.

(** Entry [k] of the block of index [i]. *)
Lemma get_subs_nth subject_id conds i k :
  i < List.length conds -> k < 11 ->
  nth_error (get_subs subject_id conds) (1 + 11 * i + k)
  = nth_error (subs_of_index (List.length conds) i) k.
Proof.
  intros Hi Hk. rewrite get_subs_blocks.
  change (1 + 11 * i + k) with (S (11 * i + k)). cbn [nth_error].
  now rewrite (nth_error_blocks _ 11) by (reflexivity || assumption).
Qed.

(** Every entry is the pair of the subject or belongs to the block of an
    index. *)
Lemma get_subs_In subject_id conds e :
  In e (get_subs subject_id conds) ->
  e = ("_subject_id_" ++ subject_id, "") \/
  exists j, j < List.length conds /\
            In e (subs_of_index (List.length conds) j).
Proof.
  rewrite get_subs_blocks. intros [H|H]; [now left|right].
  apply in_flat_map in H as (j & Hj & H). apply in_seq in Hj.
  exists j. split; [lia|assumption].
Qed.

(** Every entry after position 0 belongs to the block of an index. *)
Lemma get_subs_later subject_id conds k e :
  0 < k -> nth_error (get_subs subject_id conds) k = Some e ->
  exists j, j < List.length conds /\
            In e (subs_of_index (List.length conds) j).
Proof.
  rewrite get_subs_blocks. destruct k as [|k]; [lia|]. intros _ H.
  cbn [nth_error] in H. apply nth_error_In, in_flat_map in H as (j & Hj & H).
  apply in_seq in Hj. exists j. split; [lia|assumption].
Qed.

End GetSubsFacts.

(** A pattern of the warp stage is told from every other pattern of the
    table by its stage, its file name and its replica index. *)
Ltac pattern_cases H :=
  repeat (destruct H as [H|H];
          [apply pair_equal_spec in H as [H ?]; subst|]);
  try contradiction;
  try (simpl in H; congruence);
  apply (append_cancel_l "_warpall") in H;
  apply digits_then_sep in H;
  try apply all_digits_d; try reflexivity;
  destruct H as [H ?]; try discriminate; apply d_inj in H.

Section WarpStage.

Context {Cond : Type}.
Implicit Types (conds : list Cond) (subject_id : string).

Lemma cope_warp_functional subject_id conds i r :
  In ("_warpall" ++ Fmt.d i ++ "/cope1_warp.", r)
     (get_subs subject_id conds) ->
  r = stable_name "cope" i.
Proof.
  intros H. apply get_subs_In in H as [H|(j & _ & H)].
  - simpl in H. congruence.
  - unfold subs_of_index in H. cbn [In] in H.
    pattern_cases H. subst. reflexivity.
Qed.

Lemma varcope_warp_functional subject_id conds i r :
  In ("_warpall" ++ Fmt.d (List.length conds + i) ++ "/varcope1_warp.", r)
     (get_subs subject_id conds) ->
  r = stable_name "varcope" i.
Proof.
  intros H. apply get_subs_In in H as [H|(j & _ & H)].
  - simpl in H. congruence.
  - unfold subs_of_index in H. cbn [In] in H.
    pattern_cases H. assert (j = i) by lia. subst. reflexivity.
Qed.

Lemma zstat_warp_functional subject_id conds i r :
  In ("_warpall" ++ Fmt.d (2 * List.length conds + i) ++ "/zstat1_warp.", r)
     (get_subs subject_id conds) ->
  r = stable_name "zstat" i.
Proof.
  intros H. apply get_subs_In in H as [H|(j & _ & H)].
  - simpl in H. congruence.
  - unfold subs_of_index in H. cbn [In] in H.
    pattern_cases H. assert (j = i) by lia. subst. reflexivity.
Qed.

(** C1. For every subject id and every contrast list of length C, and for
    every contrast index i below C, the table of [get_subs] maps the cope
    pattern of the warp stage at replica index i, the varcope pattern at
    replica index C + i and the zstat pattern at replica index 2C + i to
    the zero-padded names of contrast i + 1; no other entry of the table
    gives one of these patterns another name. *)
Theorem get_subs_warp_offsets subject_id conds i :
  i < List.length conds ->
  let C := List.length conds in
  let subs := get_subs subject_id conds in
  maps_to subs ("_warpall" ++ Fmt.d i ++ "/cope1_warp.")
          ("cope" ++ Fmt.d02 (i + 1) ++ ".") /\
  maps_to subs ("_warpall" ++ Fmt.d (C + i) ++ "/varcope1_warp.")
          ("varcope" ++ Fmt.d02 (i + 1) ++ ".") /\
  maps_to subs ("_warpall" ++ Fmt.d (2 * C + i) ++ "/zstat1_warp.")
          ("zstat" ++ Fmt.d02 (i + 1) ++ ".").
Proof.
  intros Hi C subs. unfold maps_to. subst subs C.
  repeat split.
  - apply (nth_error_In _ (1 + 11 * i + 5)).
    now rewrite get_subs_nth by (assumption || lia).
  - apply cope_warp_functional.
  - apply (nth_error_In _ (1 + 11 * i + 6)).
    now rewrite get_subs_nth by (assumption || lia).
  - apply varcope_warp_functional.
  - apply (nth_error_In _ (1 + 11 * i + 7)).
    now rewrite get_subs_nth by (assumption || lia).
  - apply zstat_warp_functional.
Qed.

(** C3. For every subject id s and every contrast list, the table of
    [get_subs] starts with the pair ("_subject_id_" + s, ""), and the
    eleven entries written for the contrast of index i all have, as their
    replacement, a stem followed by i + 1 in two zero-padded digits and a
    dot (01 for index 0, 02 for index 1); the table has no other entry. *)
Theorem get_subs_first_and_suffixes subject_id conds :
  let subs := get_subs subject_id conds in
  nth_error subs 0 = Some ("_subject_id_" ++ subject_id, "") /\
  List.length subs = 1 + 11 * List.length conds /\
  Fmt.d02 (0 + 1) = "01" /\ Fmt.d02 (1 + 1) = "02" /\
  forall i k, i < List.length conds -> k < 11 ->
    exists pat stem,
      nth_error stems k = Some stem /\
      nth_error subs (1 + 11 * i + k)
      = Some (pat, stem ++ Fmt.d02 (i + 1) ++ ".").
Proof.
  cbv zeta. split; [|split; [|split; [|split]]].
  - now rewrite get_subs_blocks.
  - apply get_subs_length.
  - reflexivity.
  - reflexivity.
  - intros i k Hi Hk. rewrite get_subs_nth by assumption.
    unfold subs_of_index, stems.
    do 11 (destruct k as [|k]; [eexists _, _; split; reflexivity|]).
    lia.
Qed.

(** C8. In every table of [get_subs], the pattern of an entry does not
    occur in the replacement of an entry placed before it: replacements
    have no underscore, and every pattern after the first starts with
    one. *)
Theorem get_subs_later_pattern_not_in_replacement
        subject_id conds j k pj rj pk rk :
  j < k ->
  nth_error (get_subs subject_id conds) j = Some (pj, rj) ->
  nth_error (get_subs subject_id conds) k = Some (pk, rk) ->
  occurs pk rj = false.
Proof.
  intros Hjk Hj Hk.
  assert (Hr : has_char "_" rj = false).
  { apply nth_error_In, get_subs_In in Hj as [Hj|(i & _ & Hj)].
    - injection Hj as _ ->. reflexivity.
    - unfold subs_of_index in Hj. cbn [In] in Hj.
      repeat (destruct Hj as [Hj|Hj];
              [apply pair_equal_spec in Hj as [_ <-];
               rewrite !has_char_append,
                 (all_digits_no_char "_" (Fmt.d02 (i + 1)))
                 by (reflexivity || apply all_digits_d02);
               reflexivity|]).
      contradiction. }
  apply get_subs_later in Hk as (i & _ & Hk); [|lia].
  destruct (occurs pk rj) eqn:E; [|reflexivity].
  assert (Hp : exists p, pk = String "_" p).
  { unfold subs_of_index in Hk. cbn [In] in Hk.
    repeat (destruct Hk as [Hk|Hk];
            [apply pair_equal_spec in Hk as [<- _]; eexists; reflexivity|]).
    contradiction. }
  destruct Hp as (p & ->).
  apply occurs_has_char in E. congruence.
Qed.

End WarpStage.

(** With two contrasts, index 0: the varcope of the warp stage is replica
    2 and the zstat replica 4. *)
Lemma get_subs_warp_offsets_witness :
  let subs := get_subs "01" ["taskA"; "taskB"] in
  maps_to subs "_warpall0/cope1_warp." "cope01." /\
  maps_to subs "_warpall2/varcope1_warp." "varcope01." /\
  maps_to subs "_warpall4/zstat1_warp." "zstat01.".
Proof.
  apply (get_subs_warp_offsets "01" ["taskA"; "taskB"] 0).
  simpl. lia.
Defined.

Lemma get_subs_first_and_suffixes_witness :
  exists pat stem,
    nth_error stems 6 = Some stem /\
    nth_error (get_subs "01" ["taskA"; "taskB"]) (1 + 11 * 1 + 6)
    = Some (pat, stem ++ "02" ++ ".").
Proof.
  refine (proj2 (proj2 (proj2 (proj2
    (get_subs_first_and_suffixes "01" ["taskA"; "taskB"])))) 1 6 _ _).
  - simpl. lia.
  - lia.
Defined.

Lemma get_subs_later_pattern_not_in_replacement_witness :
  occurs "_warpall3/varcope1_warp." "cope01." = false.
Proof.
  apply (get_subs_later_pattern_not_in_replacement
           "01" ["taskA"; "taskB"] 1 18 "_flameo0/cope1." "cope01."
           "_warpall3/varcope1_warp." "varcope02.").
  - lia.
  - reflexivity.
  - reflexivity.
Defined.

(** ** Arrays *)

Section NumpyFacts.

Context {A : Type} {dtypes : Scalar A}.
Implicit Types (rows : list (list A)) (row : list A).

Lemma np_shape_atoms row :
  np_shape (PyList (map Atom row)) = Some [List.length row].
Proof.
  cbn [np_shape]. rewrite map_map, length_map. cbn [np_shape].
  destruct row as [|x row]; [reflexivity|].
  cbn [map].
  replace (forallb _ _) with true; [reflexivity|].
  symmetry. apply forallb_forall. intros s Hs.
  apply in_map_iff in Hs as (y & <- & _). reflexivity.
Qed.

Lemma leaves_atoms row : leaves (PyList (map Atom row)) = row.
Proof.
  cbn [leaves]. induction row as [|x row IH]; simpl; [reflexivity|].
  now rewrite IH.
Qed.

Lemma leaves_of_rows rows : leaves (of_rows rows) = List.concat rows.
Proof.
  unfold of_rows. cbn [leaves].
  induction rows as [|row rows IH]; [reflexivity|].
  cbn [map flat_map List.concat]. now rewrite IH, leaves_atoms.
Qed.

Lemma np_shape_of_rows C rows :
  rows_of_width C rows -> np_shape (of_rows rows) <> None.
Proof.
  intros H. unfold of_rows. cbn [np_shape]. rewrite map_map.
  destruct H as [|row rows Hrow Hrows]; [discriminate|].
  cbn [map]. rewrite np_shape_atoms.
  replace (forallb _ _) with true; [discriminate|].
  symmetry. apply forallb_forall. intros s Hs.
  apply in_map_iff in Hs as (y & <- & Hy).
  rewrite np_shape_atoms, Hrow.
  rewrite Forall_forall in Hrows. rewrite (Hrows y Hy).
  unfold shape_eqb. now destruct (list_eq_dec Nat.eq_dec [C] [C]).
Qed.

Lemma length_np_store (l : list A) :
  List.length (np_store l) = List.length l.
Proof.
  unfold np_store. destruct l as [|x rest]; [reflexivity|].
  destruct (forallb (same_dtype x) rest); [reflexivity|apply length_map].
Qed.

(** Scalars of one dtype are stored as they are. *)
Lemma one_dtype_stored (l : list A) : one_dtype l -> stored_unchanged l.
Proof.
  unfold one_dtype, stored_unchanged, np_store. intros Hl.
  destruct l as [|x rest]; [reflexivity|].
  replace (forallb (same_dtype x) rest) with true; [reflexivity|].
  symmetry. apply forallb_forall. intros y Hy.
  apply Hl; [now left|now right].
Qed.

(** A nesting of rows of one width becomes the array of their elements,
    row after row, as numpy stores them. *)
Lemma np_array_of_rows C rows :
  rows_of_width C rows ->
  exists s, np_array (of_rows rows)
            = ret {| shape := s; data := np_store (List.concat rows) |}.
Proof.
  intros Hw. unfold np_array.
  destruct (np_shape (of_rows rows)) as [s|] eqn:E.
  - exists s. now rewrite leaves_of_rows.
  - now apply np_shape_of_rows in Hw.
Qed.

Lemma length_concat_rows C rows :
  rows_of_width C rows -> List.length (List.concat rows) = List.length rows * C.
Proof.
  induction 1 as [|row rows Hrow _ IH]; [reflexivity|].
  cbn [List.concat List.length]. rewrite length_app, IH, Hrow. lia.
Qed.

(** Reading a buffer of rows with the stride of the row width collects a
    column. *)
Lemma stride_take_column C rows j :
  rows_of_width C rows -> j < C ->
  stride_take C (List.length rows) (skipn j (List.concat rows)) = column j rows.
Proof.
  intros H Hj. unfold column.
  induction H as [|row rows Hrow _ IH]; [reflexivity|].
  cbn [List.concat List.length stride_take flat_map].
  rewrite skipn_app.
  replace (j - List.length row) with 0 by lia. cbn [skipn].
  destruct (skipn j row) as [|x tl] eqn:E.
  - apply (f_equal (@List.length A)) in E. rewrite length_skipn in E.
    cbn in E. lia.
  - change (x :: stride_take C (List.length rows)
                   (skipn C ((x :: tl) ++ List.concat rows))
            = x :: flat_map (fun row => firstn 1 (skipn j row)) rows).
    f_equal. rewrite <- IH. f_equal.
    rewrite <- E, skipn_app, length_skipn, Hrow.
    rewrite skipn_all2 by (rewrite length_skipn; lia).
    replace (C - (C - j)) with j by lia. reflexivity.
Qed.

Lemma column_cons j row rows :
  column j (row :: rows) = (firstn 1 (skipn j row) ++ column j rows)%list.
Proof. reflexivity. Qed.

Lemma column_entry C j row :
  List.length row = C -> j < C ->
  exists x, firstn 1 (skipn j row) = [x] /\ nth_error row j = Some x.
Proof.
  intros Hrow Hj.
  destruct (nth_error row j) as [x|] eqn:E.
  - exists x. split; [|reflexivity].
    apply nth_error_split in E as (l1 & l2 & -> & <-).
    rewrite skipn_app, skipn_all, Nat.sub_diag. reflexivity.
  - apply nth_error_None in E. lia.
Qed.

Lemma length_column C rows j :
  rows_of_width C rows -> j < C ->
  List.length (column j rows) = List.length rows.
Proof.
  intros H Hj. induction H as [|row rows Hrow _ IH]; [reflexivity|].
  rewrite column_cons.
  destruct (column_entry C j row Hrow Hj) as (x & -> & _).
  cbn [Datatypes.app List.length]. now rewrite IH.
Qed.

Lemma nth_error_column C rows j r run :
  rows_of_width C rows -> j < C ->
  nth_error rows r = Some run ->
  nth_error (column j rows) r = nth_error run j.
Proof.
  intros H Hj. revert r.
  induction H as [|row rows Hrow _ IH]; intros r Hr.
  - destruct r; discriminate.
  - rewrite column_cons.
    destruct (column_entry C j row Hrow Hj) as (x & -> & Hx).
    destruct r as [|r]; cbn [Datatypes.app nth_error] in *.
    + injection Hr as <-. now rewrite Hx.
    + now apply IH.
Qed.

(** Cutting blocks of one width laid end to end gives the blocks back. *)
Lemma firstn_skipn_blocks {Y} (f : nat -> list Y) (w : nat) :
  forall n a i,
    (forall j, a <= j < a + n -> List.length (f j) = w) ->
    i < n ->
    firstn w (skipn (i * w) (flat_map f (seq a n))) = f (a + i).
Proof.
  induction n as [|n IH]; intros a i Hw Hi; [lia|].
  cbn [seq flat_map].
  assert (Ha : List.length (f a) = w) by (apply Hw; lia).
  destruct i as [|i].
  - cbn [Nat.mul skipn]. rewrite Nat.add_0_r.
    rewrite firstn_app, Ha, Nat.sub_diag, firstn_O, app_nil_r.
    rewrite <- Ha. apply firstn_all.
  - rewrite skipn_app, Ha.
    rewrite skipn_all2 by (rewrite Ha; cbn; lia).
    replace (S i * w - w) with (i * w) by (cbn; lia).
    cbn [Datatypes.app]. rewrite IH; [f_equal; lia| |lia].
    intros j Hj. apply Hw. lia.
Qed.

(** The array of [R] rows of [C] elements, transposed and turned into
    lists, is the list of the columns. *)
Lemma tolist_T_rows C rows :
  rows_of_width C rows ->
  tolist (T {| nrows := List.length rows; ncols := C;
               elems := List.concat rows |})
  = transpose C rows.
Proof.
  intros H. unfold tolist, T, transpose. cbn [nrows ncols elems].
  apply map_ext_in. intros i Hi. apply in_seq in Hi.
  rewrite (firstn_skipn_blocks _ (List.length rows)).
  - now apply stride_take_column.
  - intros j Hj. rewrite stride_take_column by (assumption || lia).
    apply (length_column C); (assumption || lia).
  - lia.
Qed.

(** [transpose] is the transpose of the claim. *)
Lemma transpose_is_transpose C rows :
  rows_of_width C rows ->
  is_transpose (List.length rows) C rows (transpose C rows).
Proof.
  intros H. unfold is_transpose, transpose. split.
  - now rewrite length_map, length_seq.
  - intros i Hi. exists (column i rows). repeat split.
    + rewrite nth_error_map, nth_error_seq.
      apply Nat.ltb_lt in Hi. now rewrite Hi.
    + now apply (length_column C).
    + intros r Hr. destruct (nth_error rows r) as [run|] eqn:E.
      * exists run. split; [reflexivity|].
        now apply (nth_error_column C).
      * apply nth_error_None in E. lia.
Qed.

End NumpyFacts.

(** ** The reshape *)

Section SortCopesFacts.

Context {A Cond : Type} {dtypes : Scalar A}.
Implicit Types (copes varcopes : list (list A)) (contrasts : list Cond).

(** One series of [sort_copes]: flattened rows of width [C], cut again
    into rows of [C] elements, transposed and listed. *)
Lemma reshape_rows C rows :
  1 <= C -> rows_of_width (A:=A) C rows ->
  bind (int_div (List.length (List.concat rows)) C)
       (fun r => reshape (List.concat rows) r C)
  = ret {| nrows := List.length rows; ncols := C;
           elems := List.concat rows |}.
Proof.
  intros HC H. unfold int_div, reshape.
  rewrite (length_concat_rows C rows H).
  destruct (Nat.eqb_spec C 0) as [->|_]; [lia|].
  cbn [bind ret]. rewrite Nat.div_mul by lia.
  now rewrite Nat.eqb_refl.
Qed.

(** On two nestings of rows of [C >= 1] elements that numpy stores as
    they are, [sort_copes] returns the columns of each and the number of
    rows of the first. *)
Lemma sort_copes_of_rows copes varcopes contrasts :
  1 <= List.length contrasts ->
  rows_of_width (List.length contrasts) copes ->
  rows_of_width (List.length contrasts) varcopes ->
  stored_unchanged (List.concat copes) ->
  stored_unchanged (List.concat varcopes) ->
  sort_copes (of_rows copes) (of_rows varcopes) contrasts
  = ret (transpose (List.length contrasts) copes,
         transpose (List.length contrasts) varcopes,
         List.length copes).
Proof.
  intros HC Hc Hv Sc Sv.
  destruct (np_array_of_rows _ _ Hc) as (sc & Ec).
  destruct (np_array_of_rows _ _ Hv) as (sv & Ev).
  unfold stored_unchanged in Sc, Sv. rewrite Sc in Ec. rewrite Sv in Ev.
  unfold sort_copes.
  change (PyList (map (fun row => PyList (map Atom row)) copes))
    with (of_rows copes).
  unfold of_rows at 1.
  change (PyList (map (fun row => PyList (map Atom row)) copes))
    with (of_rows copes).
  rewrite Ec, Ev. cbn [bind ret flatten data].
  pose proof (reshape_rows _ _ HC Hc) as Rc.
  pose proof (reshape_rows _ _ HC Hv) as Rv.
  unfold bind in Rc, Rv.
  destruct (int_div (List.length (List.concat copes)) _) as [e|r];
    [discriminate|].
  cbn [bind]. rewrite Rc. cbn [bind ret].
  destruct (int_div (List.length (List.concat varcopes)) _) as [e|r'];
    [discriminate|].
  cbn [bind]. rewrite Rv. cbn [bind ret].
  now rewrite !tolist_T_rows, length_map by assumption.
Qed.

(** C2, as the code has it. For copes and varcopes given as R runs of
    C >= 1 scalars each that numpy stores as they are (scalars of one
    dtype, such as file names, machine-size integers or floats),
    [sort_copes] returns the transpose of each (C lists of R elements,
    list i holding element i of every run, in run order) and R as n_runs.
    In particular three runs of two contrasts
    [[c00,c01],[c10,c11],[c20,c21]] of such scalars give
    [[c00,c10,c20],[c01,c11,c21]] and n_runs = 3. *)
Theorem sort_copes_transposes :
  (forall copes varcopes contrasts R C,
      1 <= C ->
      List.length contrasts = C ->
      List.length copes = R -> List.length varcopes = R ->
      rows_of_width C copes -> rows_of_width C varcopes ->
      stored_unchanged (List.concat copes) ->
      stored_unchanged (List.concat varcopes) ->
      exists outcopes outvarcopes,
        sort_copes (of_rows copes) (of_rows varcopes) contrasts
        = ret (outcopes, outvarcopes, R) /\
        is_transpose R C copes outcopes /\
        is_transpose R C varcopes outvarcopes) /\
  (forall (c00 c01 c10 c11 c20 c21 v00 v01 v10 v11 v20 v21 : A)
          (k1 k2 : Cond),
      stored_unchanged [c00; c01; c10; c11; c20; c21] ->
      stored_unchanged [v00; v01; v10; v11; v20; v21] ->
      sort_copes (of_rows [[c00; c01]; [c10; c11]; [c20; c21]])
                 (of_rows [[v00; v01]; [v10; v11]; [v20; v21]]) [k1; k2]
      = ret ([[c00; c10; c20]; [c01; c11; c21]],
             [[v00; v10; v20]; [v01; v11; v21]], 3)).
Proof.
  split.
  - intros copes varcopes contrasts R C HC <- <- HR Hc Hv Sc Sv.
    exists (transpose (List.length contrasts) copes),
           (transpose (List.length contrasts) varcopes).
    split; [|split].
    + now apply sort_copes_of_rows.
    + now apply transpose_is_transpose.
    + rewrite <- HR. now apply transpose_is_transpose.
  - intros c00 c01 c10 c11 c20 c21 v00 v01 v10 v11 v20 v21 k1 k2 Sc Sv.
    rewrite sort_copes_of_rows.
    + reflexivity.
    + cbn. lia.
    + repeat constructor.
    + repeat constructor.
    + exact Sc.
    + exact Sv.
Qed.

(** C5. A bare scalar given for copes is treated as a single row: with one
    contrast, the scalar a (and the scalar b for varcopes) gives copes
    [[a]], varcopes [[b]] and n_runs = 1, as the lists [a] and [b] do. *)
Theorem sort_copes_scalar (a b : A) (k : Cond) :
  sort_copes (Atom a) (Atom b) [k] = ret ([[a]], [[b]], 1) /\
  sort_copes (PyList [Atom a]) (PyList [Atom b]) [k]
  = ret ([[a]], [[b]], 1) /\
  forall (v : pyval A) contrasts,
    sort_copes (Atom a) v contrasts
    = sort_copes (PyList [Atom a]) (PyList [v]) contrasts.
Proof. repeat split. Qed.

Lemma reshape_mismatch (v : list A) (C : nat) :
  C <> 0 -> List.length v mod C <> 0 ->
  reshape v (List.length v / C) C
  = raise (ValueError (CannotReshape (List.length v)
                                     [List.length v / C; C])).
Proof.
  intros HC Hm. unfold reshape.
  destruct (Nat.eqb_spec (List.length v / C * C) (List.length v)) as [E|_];
    [|reflexivity].
  pose proof (Nat.div_mod_eq (List.length v) C). lia.
Qed.

Lemma reshape_match (v : list A) (C : nat) :
  List.length v mod C = 0 ->
  reshape v (List.length v / C) C
  = ret {| nrows := List.length v / C; ncols := C; elems := v |}.
Proof.
  intros Hm. unfold reshape.
  destruct (Nat.eqb_spec (List.length v / C * C) (List.length v)) as [_|E];
    [reflexivity|].
  pose proof (Nat.div_mod_eq (List.length v) C). lia.
Qed.

Lemma int_div_nonzero (n C : nat) : C <> 0 -> int_div n C = ret (n / C).
Proof.
  intros HC. unfold int_div. now destruct (Nat.eqb_spec C 0).
Qed.

(** Wrapping a value in a one-element list keeps its scalars, and keeps it
    rectangular or ragged. *)
Lemma np_shape_singleton (v : pyval A) :
  np_shape (PyList [v]) <> None <-> np_shape v <> None.
Proof.
  cbn [np_shape map forallb]. destruct (np_shape v); split; congruence.
Qed.

Lemma leaves_singleton (v : pyval A) : leaves (PyList [v]) = leaves v.
Proof. cbn [leaves flat_map]. apply app_nil_r. Qed.

(** The case of a list given for copes. *)
Lemma sort_copes_list_indivisible (l : list (pyval A)) (varcopes : pyval A)
      contrasts :
  let C := List.length contrasts in
  let n := List.length (leaves (PyList l)) in
  let n' := List.length (leaves varcopes) in
  n mod C <> 0 \/ n' mod C <> 0 ->
  fails (sort_copes (PyList l) varcopes contrasts) /\
  (C <> 0 -> np_shape (PyList l) <> None -> np_shape varcopes <> None ->
   exists m, (m = n \/ m = n') /\ m mod C <> 0 /\
     sort_copes (PyList l) varcopes contrasts
     = raise (ValueError (CannotReshape m [m / C; C]))).
Proof.
  intros C n n' Hn. unfold sort_copes, np_array.
  destruct (np_shape (PyList l)) as [sc|];
    [|split; [eexists; reflexivity|congruence]].
  destruct (np_shape varcopes) as [sv|];
    [|split; [eexists; reflexivity|congruence]].
  cbn [bind ret flatten data]. fold C.
  assert (Lc : List.length (np_store (leaves (PyList l))) = n)
    by apply length_np_store.
  assert (Lv : List.length (np_store (leaves varcopes)) = n')
    by apply length_np_store.
  destruct (Nat.eq_dec C 0) as [E|HC].
  { unfold int_div. rewrite E. cbn [Nat.eqb bind raise].
    split; [eexists; reflexivity|congruence]. }
  rewrite !int_div_nonzero by assumption. cbn [bind ret].
  destruct (Nat.eq_dec (n mod C) 0) as [E|Hm].
  - destruct Hn as [Hn|Hn]; [congruence|].
    rewrite <- Lc in E. rewrite (reshape_match _ _ E). cbn [bind ret].
    rewrite <- Lv in Hn.
    rewrite (reshape_mismatch _ _ HC Hn). cbn [bind raise].
    rewrite Lv in *.
    split; [eexists; reflexivity|].
    intros _ _ _. exists n'. auto.
  - rewrite <- Lc in Hm.
    rewrite (reshape_mismatch _ _ HC Hm). cbn [bind raise].
    rewrite Lc in *.
    split; [eexists; reflexivity|].
    intros _ _ _. exists n. auto.
Qed.

(** C4. For rectangular copes and varcopes (the nestings that numpy
    turns into the array of their scalars, so that the flattened count is
    the number of scalars), whenever the flattened count of copes or of
    varcopes is not a multiple of the number C of contrasts,
    [sort_copes] fails instead of returning; for C >= 1 the failure is
    the [ValueError] of numpy's reshape, which reports the size and the
    shape that do not agree. *)
Theorem sort_copes_indivisible (copes varcopes : pyval A) contrasts :
  let C := List.length contrasts in
  let n := List.length (leaves copes) in
  let n' := List.length (leaves varcopes) in
  np_shape copes <> None -> np_shape varcopes <> None ->
  n mod C <> 0 \/ n' mod C <> 0 ->
  fails (sort_copes copes varcopes contrasts) /\
  (C <> 0 ->
   exists m, (m = n \/ m = n') /\ m mod C <> 0 /\
     sort_copes copes varcopes contrasts
     = raise (ValueError (CannotReshape m [m / C; C]))).
Proof.
  destruct copes as [a|l].
  - intros C n n' _ Hv Hn.
    change (sort_copes (Atom a) varcopes contrasts)
      with (sort_copes (PyList [Atom a]) (PyList [varcopes]) contrasts).
    pose proof (sort_copes_list_indivisible [Atom a] (PyList [varcopes])
                  contrasts) as H.
    cbv zeta in H. rewrite !leaves_singleton in H.
    destruct (H Hn) as [Hf Hm]. split; [exact Hf|].
    intros HC. apply Hm; [exact HC|discriminate|].
    now apply np_shape_singleton.
  - intros C n n' Hc Hv Hn.
    destruct (sort_copes_list_indivisible l varcopes contrasts Hn)
      as [Hf Hm].
    split; [exact Hf|]. intros HC. now apply Hm.
Qed.

Lemma length_tolist_T (m : array2 A) :
  List.length (tolist (T m)) = ncols m.
Proof. unfold tolist, T. cbn [nrows]. now rewrite length_map, length_seq. Qed.

(** C6, as the code has it. [sort_copes] compares no shapes: copes and
    varcopes are flattened and reshaped each on its own, and whenever both
    are rectangular with a number of scalars that is a multiple of
    C >= 1, a result is returned, whatever the two shapes are. *)
Theorem sort_copes_no_shape_check (l : list (pyval A)) (varcopes : pyval A)
        contrasts (sc sv : list nat) :
  let C := List.length contrasts in
  1 <= C ->
  np_shape (PyList l) = Some sc -> np_shape varcopes = Some sv ->
  List.length (leaves (PyList l)) mod C = 0 ->
  List.length (leaves varcopes) mod C = 0 ->
  exists outcopes outvarcopes,
    sort_copes (PyList l) varcopes contrasts
    = ret (outcopes, outvarcopes, List.length l) /\
    List.length outcopes = C /\ List.length outvarcopes = C.
Proof.
  intros C HC Ec Ev Hc Hv. unfold sort_copes, np_array.
  rewrite Ec, Ev. cbn [bind ret flatten data]. fold C.
  rewrite !int_div_nonzero by lia. cbn [bind ret].
  rewrite <- (length_np_store (leaves (PyList l))) in Hc.
  rewrite <- (length_np_store (leaves varcopes)) in Hv.
  rewrite (reshape_match _ _ Hc). cbn [bind ret].
  rewrite (reshape_match _ _ Hv). cbn [bind ret].
  eexists _, _. split; [reflexivity|].
  now rewrite !length_tolist_T.
Qed.

End SortCopesFacts.

Lemma sort_copes_transposes_witness :
  exists outcopes outvarcopes,
    sort_copes (of_rows [[0; 1]; [10; 11]; [20; 21]])
               (of_rows [[100; 101]; [110; 111]; [120; 121]])
               ["taskA"; "taskB"]
    = ret (outcopes, outvarcopes, 3) /\
    is_transpose 3 2 [[0; 1]; [10; 11]; [20; 21]] outcopes /\
    is_transpose 3 2 [[100; 101]; [110; 111]; [120; 121]] outvarcopes.
Proof.
  apply (proj1 sort_copes_transposes).
  - lia.
  - reflexivity.
  - reflexivity.
  - reflexivity.
  - repeat constructor.
  - repeat constructor.
  - vm_compute. reflexivity.
  - vm_compute. reflexivity.
Defined.

(** One run of two contrasts whose scalars are integers of two dtypes,
    2^63 + 1 (uint64) and -1 (int64): numpy stores them as doubles, and
    the lists returned hold 2^63 in the place of 2^63 + 1, so that they
    are not the transpose of the run. *)
Lemma sort_copes_mixed_dtypes_not_transposed :
  let copes := [[9223372036854775809%Z; (-1)%Z]] in
  let varcopes := [[1%Z; 2%Z]] in
  let outcopes := [[9223372036854775808%Z]; [(-1)%Z]] in
  rows_of_width 2 copes /\ rows_of_width 2 varcopes /\
  sort_copes (of_rows copes) (of_rows varcopes) ["taskA"; "taskB"]
  = ret (outcopes, [[1%Z]; [2%Z]], 1) /\
  ~ is_transpose 1 2 copes outcopes.
Proof.
  cbv zeta. split; [repeat constructor|]. split; [repeat constructor|].
  split; [vm_compute; reflexivity|].
  intros [_ H]. destruct (H 0) as (row & Hrow & _ & Hr); [lia|].
  cbn in Hrow. injection Hrow as <-.
  destruct (Hr 0) as (run & Hrun & E); [lia|].
  cbn in Hrun. injection Hrun as <-. cbn in E. discriminate.
Qed.

Lemma sort_copes_indivisible_witness :
  fails (sort_copes (of_rows [[0; 1; 2]]) (of_rows [[10; 11; 12]])
                    ["taskA"; "taskB"]).
Proof.
  refine (proj1 (sort_copes_indivisible (of_rows [[0; 1; 2]])
                   (of_rows [[10; 11; 12]]) ["taskA"; "taskB"] _ _ _)).
  - discriminate.
  - discriminate.
  - left. simpl. lia.
Defined.

(** Copes of one run and varcopes of two runs, two contrasts: the shapes
    differ and a result is returned. *)
Lemma sort_copes_unequal_shapes_return :
  np_shape (of_rows [[0; 1]]) <> np_shape (of_rows [[100; 101]; [110; 111]])
  /\ sort_copes (of_rows [[0; 1]]) (of_rows [[100; 101]; [110; 111]])
                ["taskA"; "taskB"]
     = ret ([[0]; [1]], [[100; 110]; [101; 111]], 1).
Proof. split; [discriminate|reflexivity]. Qed.

Lemma sort_copes_no_shape_check_witness :
  exists outcopes outvarcopes,
    sort_copes (PyList [PyList [Atom 0; Atom 1]])
               (PyList [PyList [Atom 100; Atom 101];
                        PyList [Atom 110; Atom 111]])
               ["taskA"; "taskB"]
    = ret (outcopes, outvarcopes, 1) /\
    List.length outcopes = 2 /\ List.length outvarcopes = 2.
Proof.
  refine (sort_copes_no_shape_check
            [PyList [Atom 0; Atom 1]]
            (PyList [PyList [Atom 100; Atom 101];
                     PyList [Atom 110; Atom 111]])
            ["taskA"; "taskB"] [1; 2] [2; 2] _ _ _ _ _).
  - simpl. lia.
  - reflexivity.
  - reflexivity.
  - reflexivity.
  - reflexivity.
Defined.

(** ** Grouping by an integer column *)

Section GroupByZ.

Context {Row : Type}.
Variable key : Row -> Z.

Lemma same_key_Z (k : Z) (r : Row) :
  same_key Z.compare key k r = Z.eqb (key r) k.
Proof. unfold same_key. now rewrite Z.eqb_compare. Qed.

Lemma insert_key_In (k x : Z) (ks : list Z) :
  In x (insert_key Z.compare k ks) <-> x = k \/ In x ks.
Proof.
  induction ks as [|k' ks IH]; cbn [insert_key In].
  - intuition.
  - destruct (Z.compare_spec k k') as [->|_|_]; cbn [In].
    + intuition.
    + intuition.
    + rewrite IH. intuition.
Qed.

Lemma insert_key_sorted (k : Z) (ks : list Z) :
  StronglySorted Z.lt ks -> StronglySorted Z.lt (insert_key Z.compare k ks).
Proof.
  induction 1 as [|k' ks Hs IH Hk']; cbn [insert_key].
  - repeat constructor.
  - destruct (Z.compare_spec k k') as [->|Hlt|Hgt].
    + now constructor.
    + constructor; [now constructor|].
      constructor; [exact Hlt|].
      rewrite Forall_forall in *. intros x Hx.
      specialize (Hk' x Hx). lia.
    + constructor; [exact IH|].
      rewrite Forall_forall in *. intros x Hx.
      apply insert_key_In in Hx as [->|Hx]; [exact Hgt|auto].
Qed.

Lemma sorted_keys_sorted (rows : list Row) :
  StronglySorted Z.lt (sorted_keys Z.compare key rows).
Proof.
  unfold sorted_keys. induction (map key rows) as [|k ks IH]; cbn.
  - constructor.
  - now apply insert_key_sorted.
Qed.

Lemma sorted_keys_In (rows : list Row) (k : Z) :
  In k (sorted_keys Z.compare key rows) <-> In k (map key rows).
Proof.
  unfold sorted_keys. induction (map key rows) as [|k' ks IH]; cbn.
  - reflexivity.
  - rewrite insert_key_In, IH. intuition.
Qed.

End GroupByZ.

Lemma StronglySorted_filter {X} (R : X -> X -> Prop) (p : X -> bool)
      (l : list X) :
  StronglySorted R l -> StronglySorted R (filter p l).
Proof.
  induction 1 as [|x l Hs IH Hx]; cbn; [constructor|].
  destruct (p x); [|exact IH].
  constructor; [exact IH|].
  rewrite Forall_forall in *. intros y Hy.
  apply filter_In in Hy as [Hy _]. auto.
Qed.

Lemma find_hd_filter {X} (p : X -> bool) (l : list X) :
  find p l = hd_error (filter p l).
Proof.
  induction l as [|x l IH]; cbn; [reflexivity|].
  now destruct (p x).
Qed.

(** ** The data source *)

Section GetDataFacts.

Context {F : Type}.
Variable int : string -> option Z.
Implicit Types (event_data : list (event F)) (runs : list run).

(** The loop over the runs keeps, in order, the groups whose run number is
    one of the subject's in the manifest. *)
Lemma fold_add_run (subject_runs : list Z)
      (groups : list (Z * list (event F))) (acc : list (Bunch F)) :
  fold_left (add_run subject_runs) groups acc
  = (acc ++ map (fun g => bunch_of_run (snd g))
                (filter (fun g => existsb (Z.eqb (fst g)) subject_runs)
                        groups))%list.
Proof.
  revert acc. induction groups as [|[r run_data] groups IH]; intros acc.
  - cbn. now rewrite app_nil_r.
  - cbn [fold_left add_run filter fst].
    destruct (existsb (Z.eqb r) subject_runs).
    + rewrite IH. cbn [map snd]. now rewrite <- app_assoc.
    + apply IH.
Qed.

Lemma get_data_unfold bids_dir subject_id event_data runs sid r0 rest :
  int subject_id = Some sid ->
  filter (of_subject subject_id) runs = r0 :: rest ->
  get_data int bids_dir subject_id event_data runs
  = ret (map (path_join bids_dir) (map func_path (r0 :: rest)),
         path_join bids_dir (mask_path r0),
         map (fun r => bunch_of_run (rows_of_run sid r event_data))
             (bunch_runs sid subject_id event_data runs)).
Proof.
  intros Hint Hruns. unfold get_data. rewrite Hint. cbn [bind ret].
  rewrite Hruns. cbn [map bind ret]. do 2 f_equal.
  rewrite fold_add_run. cbn [Datatypes.app].
  unfold groupby, bunch_runs. rewrite Hruns.
  induction (sorted_keys Z.compare ev_run _) as [|k ks IH];
    [reflexivity|].
  cbn [map filter fst].
  destruct (existsb (Z.eqb k) _); [|exact IH].
  cbn [map snd]. rewrite IH. do 2 f_equal.
  unfold rows_of_run. apply filter_ext. intros e. apply same_key_Z.
Qed.

Lemma bunch_runs_sorted sid subject_id event_data runs :
  StronglySorted Z.lt (bunch_runs sid subject_id event_data runs).
Proof. apply StronglySorted_filter, sorted_keys_sorted. Qed.

Lemma bunch_runs_In sid subject_id event_data runs r :
  In r (bunch_runs sid subject_id event_data runs) <->
  (exists m, In m runs /\ subject m = subject_id /\ number m = r) /\
  (exists e, In e event_data /\ ev_subject e = sid /\ ev_run e = r).
Proof.
  unfold bunch_runs.
  rewrite filter_In, sorted_keys_In, in_map_iff, existsb_exists.
  split.
  - intros [(e & <- & He) (x & Hx & Hr)].
    apply filter_In in He as [He Hs]. apply Z.eqb_eq in Hs, Hr. subst x.
    apply in_map_iff in Hx as (m & Hm & Hx).
    apply filter_In in Hx as [Hx Hsub]. apply String.eqb_eq in Hsub.
    split; [exists m|exists e]; auto.
  - intros [(m & Hm & Hsub & <-) (e & He & Hs & Hr)]. split.
    + exists e. split; [exact Hr|].
      apply filter_In. split; [exact He|]. now apply Z.eqb_eq.
    + exists (number m). split; [|apply Z.eqb_refl].
      apply in_map. apply filter_In. split; [exact Hm|].
      now apply String.eqb_eq.
Qed.

(** C7, as the code has it. For a subject id that [int] accepts and that
    the manifest lists, [get_data] returns one bunch for every run number
    that occurs both in the subject's rows of the event table and in the
    manifest entries of the subject, each built from the rows of that run,
    in ascending order of the run number; a run of the manifest without
    event rows, like an event run absent from the manifest, gets none. *)
Theorem get_data_bunches bids_dir subject_id event_data runs sid :
  int subject_id = Some sid ->
  (exists m, In m runs /\ subject m = subject_id) ->
  exists ks,
    subject_info (get_data int bids_dir subject_id event_data runs)
    = Some (map (fun r => bunch_of_run (rows_of_run sid r event_data)) ks) /\
    StronglySorted Z.lt ks /\
    forall r, In r ks <->
      (exists m, In m runs /\ subject m = subject_id /\ number m = r) /\
      (exists e, In e event_data /\ ev_subject e = sid /\ ev_run e = r).
Proof.
  intros Hint (m & Hm & Hsub).
  destruct (filter (of_subject subject_id) runs) as [|r0 rest] eqn:E.
  { assert (H : In m (filter (of_subject subject_id) runs)).
    { apply filter_In. split; [exact Hm|]. now apply String.eqb_eq. }
    rewrite E in H. destruct H. }
  exists (bunch_runs sid subject_id event_data runs).
  rewrite (get_data_unfold _ _ _ _ _ _ _ Hint E).
  split; [reflexivity|]. split.
  - apply bunch_runs_sorted.
  - apply bunch_runs_In.
Qed.

(** C9. For a subject id that the manifest lists, the brainmask returned
    by [get_data] is [bids_dir] joined with the mask path of the first
    entry of the subject in the manifest, and it is returned whenever
    [int] accepts the subject id (otherwise nothing is returned); two
    manifests whose first entries of the subject have the same mask path
    give the same brainmask, whatever their other entries and the event
    tables are. *)
Theorem get_data_brainmask_first bids_dir subject_id :
  (forall event_data runs r0,
      find (of_subject subject_id) runs = Some r0 ->
      brainmask (get_data int bids_dir subject_id event_data runs)
      = option_map (fun _ => path_join bids_dir (mask_path r0))
                   (int subject_id)) /\
  (forall event_data event_data' runs runs' r0 r0',
      find (of_subject subject_id) runs = Some r0 ->
      find (of_subject subject_id) runs' = Some r0' ->
      mask_path r0 = mask_path r0' ->
      brainmask (get_data int bids_dir subject_id event_data runs)
      = brainmask (get_data int bids_dir subject_id event_data' runs')).
Proof.
  assert (H : forall event_data runs r0,
             find (of_subject subject_id) runs = Some r0 ->
             brainmask (get_data int bids_dir subject_id event_data runs)
             = option_map (fun _ => path_join bids_dir (mask_path r0))
                          (int subject_id)).
  { intros event_data runs r0 Hfind. rewrite find_hd_filter in Hfind.
    destruct (filter (of_subject subject_id) runs) as [|x rest] eqn:E;
      [discriminate|].
    injection Hfind as ->.
    destruct (int subject_id) as [sid|] eqn:Hint.
    - now rewrite (get_data_unfold _ _ _ _ _ _ _ Hint E).
    - unfold get_data. now rewrite Hint. }
  split; [exact H|].
  intros event_data event_data' runs runs' r0 r0' H0 H0' Hmask.
  now rewrite (H _ _ _ H0), (H _ _ _ H0'), Hmask.
Qed.

(** C10. For a subject id that no entry of the manifest has, [get_data]
    returns nothing: once [int] has accepted the subject id, taking the
    first mask of the empty list raises [IndexError]; when [int] refuses
    the subject id, its [ValueError] comes first. *)
Theorem get_data_no_entry bids_dir subject_id event_data runs :
  (forall m, In m runs -> subject m <> subject_id) ->
  fails (get_data int bids_dir subject_id event_data runs) /\
  (forall sid, int subject_id = Some sid ->
     get_data int bids_dir subject_id event_data runs = raise IndexError) /\
  (int subject_id = None ->
     get_data int bids_dir subject_id event_data runs
     = raise (ValueError (InvalidLiteral subject_id))).
Proof.
  intros Hno.
  assert (E : filter (of_subject subject_id) runs = []).
  { induction runs as [|m l IH]; [reflexivity|]. cbn [filter].
    unfold of_subject at 1.
    destruct (String.eqb_spec (subject m) subject_id) as [Hs|_].
    - exfalso. apply (Hno m); [now left|exact Hs].
    - apply IH. intros x Hx. apply Hno. now right. }
  unfold get_data, fails. rewrite E.
  destruct (int subject_id) as [sid|]; cbn.
  - split; [eauto|]. split; [reflexivity|discriminate].
  - split; [eauto|]. split; [discriminate|reflexivity].
Qed.

End GetDataFacts.

(** Subject "01" has run 1 in the manifest and no row in the event table:
    [get_data] returns, with no bunch for that run. *)
Lemma get_data_manifest_run_without_bunch :
  let runs := [sample_run 1 "01" "func1.nii.gz" "mask1.nii.gz"] in
  map number (filter (of_subject "01") runs) = [1%Z] /\
  get_data (F:=nat) int_of_decimal "/data" "01" [] runs
  = ret (["/data/func1.nii.gz"], "/data/mask1.nii.gz", []).
Proof. split; reflexivity. Qed.

Lemma get_data_bunches_witness :
  exists ks,
    subject_info
      (get_data int_of_decimal "/data" "01"
         [sample_event 1 2 "b" 0; sample_event 1 1 "a" 1;
          sample_event 2 1 "a" 2; sample_event 1 3 "c" 3]
         [sample_run 2 "01" "f2" "m2"; sample_run 1 "01" "f1" "m1";
          sample_run 4 "01" "f4" "m4"; sample_run 3 "02" "g3" "n3"])
    = Some (map (fun r => bunch_of_run
                   (rows_of_run 1 r
                      [sample_event 1 2 "b" 0; sample_event 1 1 "a" 1;
                       sample_event 2 1 "a" 2; sample_event 1 3 "c" 3])) ks)
    /\ StronglySorted Z.lt ks
    /\ forall r, In r ks <->
         (exists m, In m [sample_run 2 "01" "f2" "m2";
                          sample_run 1 "01" "f1" "m1";
                          sample_run 4 "01" "f4" "m4";
                          sample_run 3 "02" "g3" "n3"]
                    /\ subject m = "01" /\ number m = r) /\
         (exists e, In e [sample_event 1 2 "b" 0; sample_event 1 1 "a" 1;
                          sample_event 2 1 "a" 2; sample_event 1 3 "c" 3]
                    /\ ev_subject e = 1%Z /\ ev_run e = r).
Proof.
  apply (get_data_bunches int_of_decimal "/data" "01").
  - reflexivity.
  - exists (sample_run 2 "01" "f2" "m2"). split; [now left|reflexivity].
Defined.

Lemma get_data_brainmask_first_witness :
  brainmask
    (get_data int_of_decimal "/data" "01"
       [sample_event 1 2 "b" 0]
       [sample_run 3 "02" "g3" "n3"; sample_run 2 "01" "f2" "m2";
        sample_run 1 "01" "f1" "m1"])
  = Some "/data/m2".
Proof.
  refine (proj1 (get_data_brainmask_first int_of_decimal "/data" "01")
                [sample_event 1 2 "b" 0]
                [sample_run 3 "02" "g3" "n3"; sample_run 2 "01" "f2" "m2";
                 sample_run 1 "01" "f1" "m1"]
                (sample_run 2 "01" "f2" "m2") _).
  reflexivity.
Defined.

Lemma get_data_no_entry_witness :
  get_data int_of_decimal "/data" "03" [sample_event 3 1 "a" 0]
           [sample_run 1 "01" "f1" "m1"; sample_run 1 "02" "g1" "n1"]
  = raise IndexError.
Proof.
  refine (proj1 (proj2 (get_data_no_entry int_of_decimal "/data" "03"
                          [sample_event 3 1 "a" 0]
                          [sample_run 1 "01" "f1" "m1";
                           sample_run 1 "02" "g1" "n1"] _)) 3%Z _).
  - intros m [<-|[<-|[]]]; discriminate.
  - reflexivity.
Defined.

(** * Further properties *)

(** ** Zero-padded numbers and published names *)

Lemma uint_of_string_zeros (k : nat) (s : string) :
  NilEmpty.uint_of_string (Fmt.zeros k ++ s)
  = option_map (Nat.iter k D0) (NilEmpty.uint_of_string s).
Proof.
  induction k as [|k IH]; cbn [Fmt.zeros append Nat.iter].
  - now destruct (NilEmpty.uint_of_string s).
  - cbn [NilEmpty.uint_of_string]. rewrite IH.
    now destruct (NilEmpty.uint_of_string s).
Qed.

Lemma of_uint_iter_D0 (k : nat) (u : uint) :
  Nat.of_uint (Nat.iter k D0 u) = Nat.of_uint u.
Proof. induction k as [|k IH]; [reflexivity|]. cbn [Nat.iter]. exact IH. Qed.

Lemma d_nonempty (n : nat) : Fmt.d n <> "".
Proof.
  unfold Fmt.d. rewrite <- (Unsigned.of_to n) at 1.
  rewrite Unsigned.to_of. unfold unorm.
  destruct (nzhead (Nat.to_uint n)); discriminate.
Qed.

Lemma parse_nat_zeros_d (k n : nat) :
  parse_nat (Fmt.zeros k ++ Fmt.d n) = Some n.
Proof.
  unfold parse_nat, NilZero.uint_of_string.
  destruct (Fmt.zeros k ++ Fmt.d n) as [|c rest] eqn:E.
  - destruct k; [|discriminate]. now apply d_nonempty in E.
  - rewrite <- E, uint_of_string_zeros. unfold Fmt.d.
    rewrite NilEmpty.usu. cbn [option_map].
    now rewrite of_uint_iter_D0, Unsigned.of_to.
Qed.

Lemma d02_inj (n m : nat) : Fmt.d02 n = Fmt.d02 m -> n = m.
Proof.
  intros H. apply (f_equal parse_nat) in H. unfold Fmt.d02 in H.
  rewrite !parse_nat_zeros_d in H. now injection H.
Qed.

Lemma d02_two_below_100 (n : nat) :
  n < 100 -> String.length (Fmt.d02 n) = 2.
Proof.
  intros Hn.
  assert (H : forallb (fun k => String.length (Fmt.d02 k) =? 2)%nat
                      (seq 0 100) = true) by (vm_compute; reflexivity).
  rewrite forallb_forall in H. apply Nat.eqb_eq, H, in_seq. lia.
Qed.

(** X1. ['%d'] and ['%02d'] lose nothing: read back as a number, the text
    written for n is n; the padded text has two characters for every
    n below 100 and consists of digits only. *)
Theorem fmt_round_trip (n : nat) :
  parse_nat (Fmt.d n) = Some n /\
  parse_nat (Fmt.d02 n) = Some n /\
  all_digits (Fmt.d02 n) = true /\
  (n < 100 -> String.length (Fmt.d02 n) = 2).
Proof.
  repeat split.
  - apply (parse_nat_zeros_d 0).
  - apply parse_nat_zeros_d.
  - apply all_digits_d02.
  - apply d02_two_below_100.
Qed.

Lemma fmt_round_trip_witness : String.length (Fmt.d02 7) = 2.
Proof.
  apply (proj2 (proj2 (proj2 (fmt_round_trip 7)))). lia.
Defined.

(** A published name tells its kind and its contrast. *)
Lemma stable_name_inj (s1 s2 : string) (i j : nat) :
  In s1 stem_names -> In s2 stem_names ->
  stable_name s1 i = stable_name s2 j -> s1 = s2 /\ i = j.
Proof.
  unfold stem_names, stable_name. cbn [In].
  intros H1 H2 H.
  repeat (destruct H1 as [<-|H1]); try contradiction;
    repeat (destruct H2 as [<-|H2]); try contradiction;
    try (simpl in H; congruence);
    (split; [reflexivity|]).
  - apply (append_cancel_l "cope") in H.
    apply digits_then_sep in H as [H _];
      [|reflexivity|apply all_digits_d02..].
    apply d02_inj in H. lia.
  - apply (append_cancel_l "varcope") in H.
    apply digits_then_sep in H as [H _];
      [|reflexivity|apply all_digits_d02..].
    apply d02_inj in H. lia.
  - apply (append_cancel_l "zstat") in H.
    apply digits_then_sep in H as [H _];
      [|reflexivity|apply all_digits_d02..].
    apply d02_inj in H. lia.
  - apply (append_cancel_l "tstat") in H.
    apply digits_then_sep in H as [H _];
      [|reflexivity|apply all_digits_d02..].
    apply d02_inj in H. lia.
  - apply (append_cancel_l "res4d") in H.
    apply digits_then_sep in H as [H _];
      [|reflexivity|apply all_digits_d02..].
    apply d02_inj in H. lia.
Qed.

Lemma replacement_of_index (n i : nat) (e : string * string) :
  In e (subs_of_index n i) ->
  exists stem, In stem stem_names /\ snd e = stable_name stem i.
Proof.
  unfold subs_of_index, stem_names, stable_name. cbn [In].
  intros H.
  repeat (destruct H as [<-|H];
          [eexists; split; [|reflexivity]; cbn [In]; tauto|]).
  destruct H.
Qed.

Section NameFacts.

Context {Cond : Type}.
Implicit Types (conds : list Cond) (subject_id : string).

(** X2. A published name belongs to one contrast and one kind of file:
    two entries of the table of [get_subs] written for the contrast
    indices i and j that have the same replacement have i = j, and the
    replacement is stem + '%02d' % (i + 1) + '.' for one stem only. *)
Theorem get_subs_names_by_contrast subject_id conds i j k k' p p' r :
  i < List.length conds -> j < List.length conds -> k < 11 -> k' < 11 ->
  nth_error (get_subs subject_id conds) (1 + 11 * i + k) = Some (p, r) ->
  nth_error (get_subs subject_id conds) (1 + 11 * j + k') = Some (p', r) ->
  i = j /\
  exists stem, In stem stem_names /\ r = stable_name stem i /\
               forall stem', In stem' stem_names ->
                             r = stable_name stem' i -> stem' = stem.
Proof.
  intros Hi Hj Hk Hk' H H'.
  rewrite get_subs_nth in H, H' by assumption.
  apply nth_error_In, replacement_of_index in H as (s1 & Hs1 & E1).
  apply nth_error_In, replacement_of_index in H' as (s2 & Hs2 & E2).
  cbn [snd] in E1, E2.
  assert (E : stable_name s1 i = stable_name s2 j) by congruence.
  destruct (stable_name_inj _ _ _ _ Hs1 Hs2 E) as [-> ->].
  split; [reflexivity|].
  exists s2. repeat split; [exact Hs2|exact E1|].
  intros s' Hs' E'. rewrite E1 in E'.
  now destruct (stable_name_inj _ _ _ _ Hs2 Hs' E').
Qed.

End NameFacts.

Lemma get_subs_names_by_contrast_witness :
  1 = 1 /\
  exists stem, In stem stem_names /\ "varcope02." = stable_name stem 1 /\
               forall stem', In stem' stem_names ->
                             "varcope02." = stable_name stem' 1 ->
                             stem' = stem.
Proof.
  apply (get_subs_names_by_contrast "01" ["taskA"; "taskB"] 1 1 1 6
           "_flameo1/varcope1." "_warpall3/varcope1_warp." "varcope02.").
  - simpl. lia.
  - simpl. lia.
  - lia.
  - lia.
  - reflexivity.
  - reflexivity.
Defined.

(** ** The patterns of the table *)

(** Two patterns of the loop that are equal have the same stage, the same
    file name and the same replica index. *)
Ltac same_digits H :=
  apply digits_then_sep in H;
  [ destruct H as [H ?]; try discriminate; apply d_inj in H
  | reflexivity
  | apply all_digits_d
  | apply all_digits_d ].

Ltac same_pattern H :=
  first
    [ solve [simpl in H; congruence]
    | apply (append_cancel_l "_flameo") in H; same_digits H
    | apply (append_cancel_l "_warpall") in H; same_digits H ].

Lemma patterns_of_index (n i : nat) :
  map fst (subs_of_index n i)
  = [ "_flameo" ++ Fmt.d i ++ "/cope1.";
      "_flameo" ++ Fmt.d i ++ "/varcope1.";
      "_flameo" ++ Fmt.d i ++ "/zstat1.";
      "_flameo" ++ Fmt.d i ++ "/tstat1.";
      "_flameo" ++ Fmt.d i ++ "/res4d.";
      "_warpall" ++ Fmt.d i ++ "/cope1_warp.";
      "_warpall" ++ Fmt.d (n + i) ++ "/varcope1_warp.";
      "_warpall" ++ Fmt.d (2 * n + i) ++ "/zstat1_warp.";
      "_warpall" ++ Fmt.d i ++ "/cope1_trans.";
      "_warpall" ++ Fmt.d (n + i) ++ "/varcope1_trans.";
      "_warpall" ++ Fmt.d (2 * n + i) ++ "/zstat1_trans." ].
Proof. reflexivity. Qed.

(** A pattern belongs to the block of one index only. *)
Lemma patterns_of_index_disjoint (n i j : nat) (p : string) :
  In p (map fst (subs_of_index n i)) ->
  In p (map fst (subs_of_index n j)) -> i = j.
Proof.
  rewrite !patterns_of_index. cbn [In]. intros Hi Hj.
  repeat (destruct Hi as [<-|Hi]); try contradiction;
    repeat (destruct Hj as [Hj|Hj]); try contradiction;
    same_pattern Hj; lia.
Qed.

(** The eleven patterns of a block are distinct. *)
Lemma patterns_of_index_NoDup (n i : nat) :
  NoDup (map fst (subs_of_index n i)).
Proof.
  rewrite patterns_of_index.
  repeat (constructor;
          [cbn [In]; intros H;
           repeat (destruct H as [H|H]; [same_pattern H|]);
           exact H|]).
  constructor.
Qed.

Lemma NoDup_flat_map_seq {Y} (f : nat -> list Y) :
  (forall i, NoDup (f i)) ->
  (forall i j y, In y (f i) -> In y (f j) -> i = j) ->
  forall n a, NoDup (flat_map f (seq a n)).
Proof.
  intros Hf Hd. induction n as [|n IH]; intros a; cbn [seq flat_map].
  - constructor.
  - apply NoDup_app; [apply Hf|apply IH|].
    intros y Hy Hy'. apply in_flat_map in Hy' as (j & Hj & Hy').
    apply in_seq in Hj. pose proof (Hd _ _ _ Hy Hy'). lia.
Qed.

Lemma map_flat_map {X Y Z} (g : Y -> Z) (f : X -> list Y) (l : list X) :
  map g (flat_map f l) = flat_map (fun x => map g (f x)) l.
Proof.
  induction l as [|x l IH]; [reflexivity|].
  cbn [flat_map]. now rewrite map_app, IH.
Qed.

Section TableFacts.

Context {Cond : Type}.
Implicit Types (conds : list Cond) (subject_id : string).

(** X3. No pattern is written twice: the patterns of the table of
    [get_subs] are pairwise distinct, so that every pattern has one
    replacement. *)
Theorem get_subs_patterns_distinct subject_id conds :
  NoDup (map fst (get_subs subject_id conds)).
Proof.
  rewrite get_subs_blocks. cbn [map fst]. constructor.
  - rewrite map_flat_map. intros H.
    apply in_flat_map in H as (j & _ & H).
    rewrite patterns_of_index in H. cbn [In] in H.
    repeat (destruct H as [H|H]; [simpl in H; congruence|]).
    exact H.
  - rewrite map_flat_map. apply NoDup_flat_map_seq.
    + intros i. apply patterns_of_index_NoDup.
    + intros i j p. apply patterns_of_index_disjoint.
Qed.

End TableFacts.

Section StageFacts.

Context {Cond : Type}.
Implicit Types (conds : list Cond) (subject_id : string).

(** The entries of the table with a given pattern, read off the blocks. *)
Ltac table_entry H j Hj :=
  apply get_subs_In in H as [H|(j & Hj & H)];
  [ simpl in H; congruence
  | unfold subs_of_index in H; cbn [In] in H;
    repeat (destruct H as [H|H];
            [apply pair_equal_spec in H as [H ?]; subst|]);
    try contradiction;
    same_pattern H ].

(** X4. The warp stage has 3C replicas and the table renames each of
    them once: replica n is written for the cope of contrast n + 1 when
    n < C, for the varcope of contrast n - C + 1 when C <= n < 2C, for
    the zstat of contrast n - 2C + 1 when 2C <= n < 3C, and for nothing
    else. *)
Theorem get_subs_warp_replicas subject_id conds (n : nat) (r : string) :
  let C := List.length conds in
  let subs := get_subs subject_id conds in
  (In ("_warpall" ++ Fmt.d n ++ "/cope1_warp.", r) subs <->
   n < C /\ r = stable_name "cope" n) /\
  (In ("_warpall" ++ Fmt.d n ++ "/varcope1_warp.", r) subs <->
   C <= n < 2 * C /\ r = stable_name "varcope" (n - C)) /\
  (In ("_warpall" ++ Fmt.d n ++ "/zstat1_warp.", r) subs <->
   2 * C <= n < 3 * C /\ r = stable_name "zstat" (n - 2 * C)).
Proof.
  cbv zeta. split; [|split]; split.
  - intros H. table_entry H j Hj. subst j. split; [exact Hj|reflexivity].
  - intros [Hn ->]. apply (nth_error_In _ (1 + 11 * n + 5)).
    now rewrite get_subs_nth by (assumption || lia).
  - intros H. table_entry H j Hj.
    replace (n - List.length conds) with j by lia.
    split; [lia|reflexivity].
  - intros [Hn ->].
    apply (nth_error_In _ (1 + 11 * (n - List.length conds) + 6)).
    rewrite get_subs_nth by lia. cbn [subs_of_index nth_error].
    unfold stable_name.
    now replace (List.length conds + (n - List.length conds)) with n by lia.
  - intros H. table_entry H j Hj.
    replace (n - 2 * List.length conds) with j by lia.
    split; [lia|reflexivity].
  - intros [Hn ->].
    apply (nth_error_In _ (1 + 11 * (n - 2 * List.length conds) + 7)).
    rewrite get_subs_nth by lia. cbn [subs_of_index nth_error].
    unfold stable_name.
    now replace (2 * List.length conds + (n - 2 * List.length conds))
      with n by lia.
Qed.

(** X5. In the fan-in stage the replica index is the contrast index: for
    i < C the five files of replica i of flameo are mapped to the names
    of contrast i + 1, and nothing else in the table rewrites them. *)
Theorem get_subs_flameo subject_id conds (i : nat) :
  i < List.length conds ->
  let subs := get_subs subject_id conds in
  maps_to subs ("_flameo" ++ Fmt.d i ++ "/cope1.") (stable_name "cope" i) /\
  maps_to subs ("_flameo" ++ Fmt.d i ++ "/varcope1.")
          (stable_name "varcope" i) /\
  maps_to subs ("_flameo" ++ Fmt.d i ++ "/zstat1.")
          (stable_name "zstat" i) /\
  maps_to subs ("_flameo" ++ Fmt.d i ++ "/tstat1.")
          (stable_name "tstat" i) /\
  maps_to subs ("_flameo" ++ Fmt.d i ++ "/res4d.") (stable_name "res4d" i).
Proof.
  intros Hi. cbv zeta. unfold maps_to.
  repeat split;
    try (intros r H; table_entry H j Hj; subst j; reflexivity).
  - apply (nth_error_In _ (1 + 11 * i + 0)).
    now rewrite get_subs_nth by (assumption || lia).
  - apply (nth_error_In _ (1 + 11 * i + 1)).
    now rewrite get_subs_nth by (assumption || lia).
  - apply (nth_error_In _ (1 + 11 * i + 2)).
    now rewrite get_subs_nth by (assumption || lia).
  - apply (nth_error_In _ (1 + 11 * i + 3)).
    now rewrite get_subs_nth by (assumption || lia).
  - apply (nth_error_In _ (1 + 11 * i + 4)).
    now rewrite get_subs_nth by (assumption || lia).
Qed.

(** X6. The transformed files of the warp stage follow the offsets of the
    warped ones: for i < C the table maps the cope at replica i, the
    varcope at replica C + i and the zstat at replica 2C + i to the names
    of contrast i + 1, and nothing else in the table rewrites them. *)
Theorem get_subs_trans_offsets subject_id conds (i : nat) :
  i < List.length conds ->
  let C := List.length conds in
  let subs := get_subs subject_id conds in
  maps_to subs ("_warpall" ++ Fmt.d i ++ "/cope1_trans.")
          (stable_name "cope" i) /\
  maps_to subs ("_warpall" ++ Fmt.d (C + i) ++ "/varcope1_trans.")
          (stable_name "varcope" i) /\
  maps_to subs ("_warpall" ++ Fmt.d (2 * C + i) ++ "/zstat1_trans.")
          (stable_name "zstat" i).
Proof.
  intros Hi. cbv zeta. unfold maps_to.
  repeat split;
    try (intros r H; table_entry H j Hj;
         assert (j = i) by lia; subst j; reflexivity).
  - apply (nth_error_In _ (1 + 11 * i + 8)).
    now rewrite get_subs_nth by (assumption || lia).
  - apply (nth_error_In _ (1 + 11 * i + 9)).
    now rewrite get_subs_nth by (assumption || lia).
  - apply (nth_error_In _ (1 + 11 * i + 10)).
    now rewrite get_subs_nth by (assumption || lia).
Qed.

End StageFacts.

Lemma get_subs_flameo_witness :
  let subs := get_subs "01" ["taskA"; "taskB"] in
  maps_to subs "_flameo1/cope1." "cope02." /\
  maps_to subs "_flameo1/varcope1." "varcope02." /\
  maps_to subs "_flameo1/zstat1." "zstat02." /\
  maps_to subs "_flameo1/tstat1." "tstat02." /\
  maps_to subs "_flameo1/res4d." "res4d02.".
Proof.
  apply (get_subs_flameo "01" ["taskA"; "taskB"] 1). simpl. lia.
Defined.

Lemma get_subs_trans_offsets_witness :
  let subs := get_subs "01" ["taskA"; "taskB"] in
  maps_to subs "_warpall1/cope1_trans." "cope02." /\
  maps_to subs "_warpall3/varcope1_trans." "varcope02." /\
  maps_to subs "_warpall5/zstat1_trans." "zstat02.".
Proof.
  apply (get_subs_trans_offsets "01" ["taskA"; "taskB"] 1). simpl. lia.
Defined.

Lemma get_subs_warp_replicas_witness :
  In ("_warpall3/varcope1_warp.", "varcope02.")
     (get_subs "01" ["taskA"; "taskB"]).
Proof.
  apply (proj2 (proj1 (proj2
    (get_subs_warp_replicas "01" ["taskA"; "taskB"] 3 "varcope02.")))).
  split; [simpl; lia|reflexivity].
Defined.

(** ** Rows, chunks and columns *)


Section RowFacts.

Context {A : Type}.
Implicit Types (rows : list (list A)) (row v : list A).

Lemma chunks_length c r v : List.length (chunks c r v) = r.
Proof.
  revert v. induction r as [|r IH]; intros v; cbn [chunks List.length];
    [reflexivity|].
  now rewrite IH.
Qed.

Lemma chunks_concat c r v :
  List.length v = r * c -> List.concat (chunks c r v) = v.
Proof.
  revert v. induction r as [|r IH]; intros v Hv; cbn [chunks List.concat].
  - destruct v; [reflexivity|discriminate].
  - rewrite IH; [apply firstn_skipn|].
    rewrite length_skipn, Hv. cbn. lia.
Qed.

Lemma chunks_width c r v :
  List.length v = r * c -> rows_of_width c (chunks c r v).
Proof.
  revert v. induction r as [|r IH]; intros v Hv; cbn [chunks];
    constructor.
  - rewrite length_firstn, Hv. cbn. lia.
  - apply IH. rewrite length_skipn, Hv. cbn. lia.
Qed.

(** Cutting the rows laid end to end gives the rows back. *)
Lemma chunks_of_rows c rows :
  rows_of_width c rows ->
  chunks c (List.length rows) (List.concat rows) = rows.
Proof.
  induction 1 as [|row rows Hrow _ IH]; [reflexivity|].
  cbn [List.length chunks List.concat].
  rewrite firstn_app, <- Hrow, Nat.sub_diag, firstn_all, firstn_O, app_nil_r.
  f_equal. rewrite skipn_app, skipn_all, Nat.sub_diag. cbn [skipn].
  rewrite Hrow. exact IH.
Qed.

(** The elements of a row, one by one. *)
Lemma singletons_of_row row :
  flat_map (fun j => firstn 1 (skipn j row)) (seq 0 (List.length row)) = row.
Proof.
  induction row as [|x row IH]; [reflexivity|].
  cbn [List.length seq flat_map skipn firstn]. cbn [Datatypes.app].
  f_equal. rewrite <- seq_shift, flat_map_concat_map, map_map.
  rewrite <- flat_map_concat_map. exact IH.
Qed.

Lemma flat_map_app_perm {X} (f g : X -> list A) (l : list X) :
  Permutation (flat_map (fun x => f x ++ g x)%list l)
              (flat_map f l ++ flat_map g l)%list.
Proof.
  induction l as [|x l IH]; cbn [flat_map]; [constructor|].
  rewrite IH, <- !app_assoc. apply Permutation_app_head.
  rewrite !app_assoc. apply Permutation_app_tail, Permutation_app_comm.
Qed.

(** The columns hold the elements of the rows, each once. *)
Lemma concat_transpose_perm C rows :
  rows_of_width C rows ->
  Permutation (List.concat (transpose C rows)) (List.concat rows).
Proof.
  unfold transpose. rewrite <- flat_map_concat_map.
  induction 1 as [|row rows Hrow _ IH].
  - cbn [List.concat]. induction (seq 0 C) as [|j l IHl]; [constructor|].
    exact IHl.
  - cbn [List.concat].
    rewrite (flat_map_ext _ (fun j => firstn 1 (skipn j row)
                                      ++ column j rows)%list)
      by (intros j; apply column_cons).
    rewrite flat_map_app_perm, IH, <- Hrow, singletons_of_row.
    reflexivity.
Qed.

(** Row [r] of a column. *)
Lemma column_of_column C rows r j row :
  rows_of_width C rows -> j < C ->
  nth_error rows r = Some row ->
  firstn 1 (skipn r (column j rows)) = firstn 1 (skipn j row).
Proof.
  intros H Hj. revert r.
  induction H as [|row0 rows Hrow _ IH]; intros r Hr.
  - destruct r; discriminate.
  - rewrite column_cons.
    destruct (column_entry C j row0 Hrow Hj) as (x & E & _).
    destruct r as [|r]; cbn [nth_error] in Hr.
    + injection Hr as <-. now rewrite E.
    + rewrite E. cbn [Datatypes.app skipn]. now apply IH.
Qed.

Lemma transpose_width C rows :
  rows_of_width C rows ->
  rows_of_width (List.length rows) (transpose C rows).
Proof.
  intros H. unfold rows_of_width, transpose.
  apply Forall_forall. intros col Hcol.
  apply in_map_iff in Hcol as (j & <- & Hj). apply in_seq in Hj.
  apply (length_column C); [exact H|lia].
Qed.

Lemma transpose_length C rows : List.length (transpose C rows) = C.
Proof. unfold transpose. now rewrite length_map, length_seq. Qed.

(** Transposing twice gives the rows back. *)
Lemma transpose_transpose C rows :
  rows_of_width C rows ->
  transpose (List.length rows) (transpose C rows) = rows.
Proof.
  intros H. apply nth_error_ext. intros r.
  unfold transpose at 1. rewrite nth_error_map, nth_error_seq.
  destruct (Nat.ltb_spec r (List.length rows)) as [Hr|Hr].
  - cbn [option_map Nat.add].
    destruct (nth_error rows r) as [row|] eqn:E;
      [|apply nth_error_None in E; lia].
    f_equal. unfold column at 1, transpose.
    rewrite flat_map_concat_map, map_map.
    rewrite (map_ext_in _ (fun j => firstn 1 (skipn j row))).
    + assert (Hrow : List.length row = C).
      { unfold rows_of_width in H. rewrite Forall_forall in H.
        apply H. eapply nth_error_In, E. }
      rewrite <- flat_map_concat_map, <- Hrow. apply singletons_of_row.
    + intros j Hj. apply in_seq in Hj.
      apply (column_of_column C); (assumption || lia).
  - symmetry. cbn [option_map]. now apply nth_error_None.
Qed.

End RowFacts.

(** ** More on the reshape *)

Section ReshapeFacts.

Context {A Cond : Type} {dtypes : Scalar A}.
Implicit Types (copes varcopes : pyval A) (contrasts : list Cond).

(** The rows that [tolist] returns for the transposed reshape of a flat
    buffer. *)
Lemma tolist_T_chunks (v : list A) (C : nat) :
  List.length v mod C = 0 ->
  tolist (T {| nrows := List.length v / C; ncols := C; elems := v |})
  = transpose C (chunks C (List.length v / C) v).
Proof.
  intros Hm.
  assert (Hv : List.length v = List.length v / C * C).
  { pose proof (Nat.div_mod_eq (List.length v) C). lia. }
  rewrite <- (tolist_T_rows C (chunks C (List.length v / C) v))
    by now apply chunks_width.
  now rewrite chunks_length, chunks_concat.
Qed.

(** On a list of copes, a success of [sort_copes] is the transposed
    row-major reshape of the stored scalars of each input. *)
Lemma sort_copes_list_row_major (l : list (pyval A)) varcopes contrasts :
  let C := List.length contrasts in
  let n := List.length (leaves (PyList l)) in
  let n' := List.length (leaves varcopes) in
  1 <= C ->
  np_shape (PyList l) <> None -> np_shape varcopes <> None ->
  n mod C = 0 -> n' mod C = 0 ->
  sort_copes (PyList l) varcopes contrasts
  = ret (transpose C (chunks C (n / C) (np_store (leaves (PyList l)))),
         transpose C (chunks C (n' / C) (np_store (leaves varcopes))),
         List.length l).
Proof.
  intros C n n' HC Hc Hv Hn Hn'. unfold sort_copes, np_array.
  destruct (np_shape (PyList l)) as [sc|]; [|congruence].
  destruct (np_shape varcopes) as [sv|]; [|congruence].
  cbn [bind ret flatten data]. fold C.
  assert (Lc : List.length (np_store (leaves (PyList l))) = n)
    by apply length_np_store.
  assert (Lv : List.length (np_store (leaves varcopes)) = n')
    by apply length_np_store.
  rewrite !int_div_nonzero by lia. cbn [bind ret].
  rewrite <- Lc in Hn. rewrite <- Lv in Hn'.
  rewrite (reshape_match _ _ Hn). cbn [bind ret].
  rewrite (reshape_match _ _ Hn'). cbn [bind ret].
  rewrite !tolist_T_chunks by assumption.
  now rewrite Lc, Lv.
Qed.

(** What a success of [sort_copes] on a list of copes requires. *)
Lemma sort_copes_list_returns (l : list (pyval A)) varcopes contrasts res :
  sort_copes (PyList l) varcopes contrasts = ret res ->
  1 <= List.length contrasts /\
  np_shape (PyList l) <> None /\ np_shape varcopes <> None /\
  List.length (leaves (PyList l)) mod List.length contrasts = 0 /\
  List.length (leaves varcopes) mod List.length contrasts = 0.
Proof.
  unfold sort_copes, np_array.
  destruct (np_shape (PyList l)) as [sc|]; [|discriminate].
  destruct (np_shape varcopes) as [sv|]; [|discriminate].
  cbn [bind ret flatten data].
  set (C := List.length contrasts).
  rewrite <- (length_np_store (leaves (PyList l))).
  rewrite <- (length_np_store (leaves varcopes)).
  destruct (Nat.eq_dec C 0) as [E|HC].
  { unfold int_div. rewrite E. discriminate. }
  rewrite !int_div_nonzero by assumption. cbn [bind ret].
  destruct (Nat.eq_dec
              (List.length (np_store (leaves (PyList l))) mod C) 0)
    as [Hn|Hn].
  2:{ rewrite (reshape_mismatch _ _ HC Hn). discriminate. }
  rewrite (reshape_match _ _ Hn). cbn [bind ret].
  destruct (Nat.eq_dec (List.length (np_store (leaves varcopes)) mod C) 0)
    as [Hn'|Hn'].
  2:{ rewrite (reshape_mismatch _ _ HC Hn'). discriminate. }
  intros _. repeat split; (lia || discriminate || assumption).
Qed.

(** X7. Whenever copes and varcopes are rectangular and hold a multiple
    of C >= 1 scalars each, [sort_copes] returns, for each, the scalars as
    numpy stores them, in row-major order, cut into rows of C and
    transposed, and as n_runs the number of top-level items of copes; so
    the result depends on the nesting only through the order of the
    scalars and that number. *)
Theorem sort_copes_row_major copes varcopes contrasts :
  let C := List.length contrasts in
  let n := List.length (leaves copes) in
  let n' := List.length (leaves varcopes) in
  1 <= C ->
  np_shape copes <> None -> np_shape varcopes <> None ->
  n mod C = 0 -> n' mod C = 0 ->
  sort_copes copes varcopes contrasts
  = ret (transpose C (chunks C (n / C) (np_store (leaves copes))),
         transpose C (chunks C (n' / C) (np_store (leaves varcopes))),
         n_items copes).
Proof.
  destruct copes as [a|l]; [|apply sort_copes_list_row_major].
  intros C n n' HC _ Hv Hn Hn'.
  change (sort_copes (Atom a) varcopes contrasts)
    with (sort_copes (PyList [Atom a]) (PyList [varcopes]) contrasts).
  pose proof (sort_copes_list_row_major [Atom a] (PyList [varcopes])
                contrasts) as H.
  cbv zeta in H. rewrite !leaves_singleton in H.
  apply H; try assumption; [discriminate|].
  now apply np_shape_singleton.
Qed.

(** X8. Copes given as one flat list of R * C scalars give the same
    lists as the R runs of C scalars they spell, but n_runs is then
    R * C, the length of the flat list. *)
Theorem sort_copes_flat_list (copes varcopes : list (list A)) contrasts :
  let C := List.length contrasts in
  1 <= C ->
  rows_of_width C copes -> rows_of_width C varcopes ->
  exists outcopes outvarcopes,
    sort_copes (of_rows copes) (of_rows varcopes) contrasts
    = ret (outcopes, outvarcopes, List.length copes) /\
    sort_copes (PyList (map Atom (List.concat copes)))
               (PyList (map Atom (List.concat varcopes))) contrasts
    = ret (outcopes, outvarcopes, List.length copes * C).
Proof.
  intros C HC Hc Hv.
  pose proof (length_concat_rows C copes Hc) as Nc.
  pose proof (length_concat_rows C varcopes Hv) as Nv.
  assert (Mc : List.length (List.concat copes) mod C = 0)
    by (rewrite Nc; now apply Nat.Div0.mod_mul).
  assert (Mv : List.length (List.concat varcopes) mod C = 0)
    by (rewrite Nv; now apply Nat.Div0.mod_mul).
  exists (transpose C (chunks C (List.length (List.concat copes) / C)
                              (np_store (List.concat copes)))),
         (transpose C (chunks C (List.length (List.concat varcopes) / C)
                              (np_store (List.concat varcopes)))).
  split.
  - pose proof (sort_copes_list_row_major
                  (map (fun row => PyList (map Atom row)) copes)
                  (of_rows varcopes) contrasts) as G.
    cbv zeta in G.
    change (PyList (map (fun row => PyList (map Atom row)) copes))
      with (of_rows copes) in G.
    rewrite !leaves_of_rows, length_map in G. fold C in G.
    apply G; try assumption; now apply (np_shape_of_rows C).
  - pose proof (sort_copes_list_row_major
                  (map Atom (List.concat copes))
                  (PyList (map Atom (List.concat varcopes))) contrasts) as G.
    cbv zeta in G. rewrite !leaves_atoms, length_map in G. fold C in G.
    rewrite <- Nc. apply G; try assumption;
      rewrite np_shape_atoms; discriminate.
Qed.

(** X9. Nothing is lost or repeated: whenever [sort_copes] returns, the
    lists returned for copes hold, taken together, the scalars of copes
    as numpy stores them, each as often as copes has it, hence the
    scalars of copes themselves when numpy stores them as they are; there
    are C lists, all of the same length; the same holds for varcopes;
    n_runs is the number of top-level items of copes. *)
Theorem sort_copes_keeps_scalars copes varcopes contrasts
        outcopes outvarcopes n_runs :
  sort_copes copes varcopes contrasts = ret (outcopes, outvarcopes, n_runs) ->
  let C := List.length contrasts in
  Permutation (List.concat outcopes) (np_store (leaves copes)) /\
  Permutation (List.concat outvarcopes) (np_store (leaves varcopes)) /\
  (stored_unchanged (leaves copes) ->
   Permutation (List.concat outcopes) (leaves copes)) /\
  (stored_unchanged (leaves varcopes) ->
   Permutation (List.concat outvarcopes) (leaves varcopes)) /\
  List.length outcopes = C /\ List.length outvarcopes = C /\
  rows_of_width (List.length (leaves copes) / C) outcopes /\
  rows_of_width (List.length (leaves varcopes) / C) outvarcopes /\
  n_runs = n_items copes.
Proof.
  intros H C.
  assert (G : exists l v, sort_copes (PyList l) v contrasts
                          = ret (outcopes, outvarcopes, n_runs) /\
                          leaves (PyList l) = leaves copes /\
                          leaves v = leaves varcopes /\
                          List.length l = n_items copes).
  { destruct copes as [a|l].
    - exists [Atom a], (PyList [varcopes]).
      split; [exact H|]. now rewrite !leaves_singleton.
    - exists l, varcopes. auto. }
  clear H. destruct G as (l & v & H & El & Ev & En).
  destruct (sort_copes_list_returns _ _ _ _ H) as (HC & Hc & Hv & Hn & Hn').
  rewrite (sort_copes_list_row_major l v contrasts HC Hc Hv Hn Hn') in H.
  injection H as <- <- <-.
  change (flat_map leaves l) with (leaves (PyList l)).
  rewrite El, Ev in *. fold C in Hn, Hn' |- *.
  set (sc := np_store (leaves copes)).
  set (sv := np_store (leaves varcopes)).
  assert (Lc : List.length sc = List.length (leaves copes) / C * C).
  { unfold sc. rewrite length_np_store.
    pose proof (Nat.div_mod_eq (List.length (leaves copes)) C). lia. }
  assert (Lv : List.length sv = List.length (leaves varcopes) / C * C).
  { unfold sv. rewrite length_np_store.
    pose proof (Nat.div_mod_eq (List.length (leaves varcopes)) C). lia. }
  assert (Pc : Permutation
                 (List.concat
                    (transpose C
                       (chunks C (List.length (leaves copes) / C) sc))) sc).
  { rewrite concat_transpose_perm by now apply chunks_width.
    now rewrite chunks_concat. }
  assert (Pv : Permutation
                 (List.concat
                    (transpose C
                       (chunks C (List.length (leaves varcopes) / C) sv)))
                 sv).
  { rewrite concat_transpose_perm by now apply chunks_width.
    now rewrite chunks_concat. }
  split; [exact Pc|]. split; [exact Pv|].
  split; [intros S; unfold stored_unchanged in S; fold sc in S;
          now rewrite <- S at 2|].
  split; [intros S; unfold stored_unchanged in S; fold sv in S;
          now rewrite <- S at 2|].
  repeat split.
  - apply transpose_length.
  - apply transpose_length.
  - rewrite <- (chunks_length C (List.length (leaves copes) / C) sc) at 1.
    apply transpose_width. now apply chunks_width.
  - rewrite <- (chunks_length C (List.length (leaves varcopes) / C) sv)
      at 1.
    apply transpose_width. now apply chunks_width.
  - exact En.
Qed.

(** X10. Without contrasts there is nothing to divide by: on
    rectangular inputs and an empty list of contrasts [sort_copes] raises
    [ZeroDivisionError]. *)
Theorem sort_copes_no_contrasts copes varcopes :
  np_shape copes <> None -> np_shape varcopes <> None ->
  sort_copes copes varcopes (@nil Cond) = raise ZeroDivisionError.
Proof.
  intros Hc Hv.
  assert (G : forall (l : list (pyval A)) (v : pyval A),
                          np_shape (PyList l) <> None ->
                          np_shape v <> None ->
                          sort_copes (PyList l) v (@nil Cond)
                          = raise ZeroDivisionError).
  { intros l v Hl Hv'. unfold sort_copes, np_array.
    destruct (np_shape (PyList l)); [|congruence].
    destruct (np_shape v); [|congruence]. reflexivity. }
  destruct copes as [a|l]; [|now apply G].
  change (sort_copes (Atom a) varcopes (@nil Cond))
    with (sort_copes (PyList [Atom a]) (PyList [varcopes]) (@nil Cond)).
  apply G; [discriminate|now apply np_shape_singleton].
Qed.

(** X11. A bare scalar serves one contrast only: with two contrasts or
    more, a scalar given for copes makes [sort_copes] fail, and for
    rectangular varcopes the failure is the [ValueError] of reshaping one
    element into zero rows of C. *)
Theorem sort_copes_scalar_many_contrasts (a : A) varcopes contrasts :
  2 <= List.length contrasts ->
  fails (sort_copes (Atom a) varcopes contrasts) /\
  (np_shape varcopes <> None ->
   sort_copes (Atom a) varcopes contrasts
   = raise (ValueError (CannotReshape 1 [0; List.length contrasts]))).
Proof.
  intros HC. unfold sort_copes, np_array, fails.
  cbn [np_shape map forallb leaves flat_map Datatypes.app List.length].
  destruct (np_shape varcopes) as [sv|]; cbn [bind ret raise flatten data].
  - change (np_store [a]) with [a].
    change (List.length [a]) with 1.
    rewrite (int_div_nonzero 1) by lia. cbn [bind ret].
    rewrite Nat.div_small by lia.
    change (reshape [a] 0 (List.length contrasts))
      with (raise (T:=array2 A)
              (ValueError (CannotReshape 1 [0; List.length contrasts]))).
    cbn [bind raise]. split; [eauto|reflexivity].
  - split; [eauto|congruence].
Qed.

Lemma one_dtype_transpose (C : nat) (rows : list (list A)) :
  rows_of_width C rows ->
  one_dtype (List.concat rows) ->
  one_dtype (List.concat (transpose C rows)).
Proof.
  intros Hw H x y Hx Hy.
  pose proof (concat_transpose_perm C rows Hw) as P.
  apply H; now apply (Permutation_in _ P).
Qed.

(** X12. Sorting twice undoes the sort: for R >= 1 runs of C >= 1
    scalars that are all of one dtype, [sort_copes] applied to its own
    lists, with R in the place of the number of contrasts, returns the
    runs given at first and C as n_runs. *)
Theorem sort_copes_twice (copes varcopes : list (list A))
        (contrasts runs : list Cond) :
  let C := List.length contrasts in
  let R := List.length runs in
  1 <= C -> 1 <= R ->
  List.length copes = R -> List.length varcopes = R ->
  rows_of_width C copes -> rows_of_width C varcopes ->
  one_dtype (List.concat copes) -> one_dtype (List.concat varcopes) ->
  exists outcopes outvarcopes,
    sort_copes (of_rows copes) (of_rows varcopes) contrasts
    = ret (outcopes, outvarcopes, R) /\
    sort_copes (of_rows outcopes) (of_rows outvarcopes) runs
    = ret (copes, varcopes, C).
Proof.
  intros C R HC HR Lc Lv Hc Hv Dc Dv.
  exists (transpose C copes), (transpose C varcopes). split.
  - rewrite <- Lc. apply sort_copes_of_rows; try assumption;
      now apply one_dtype_stored.
  - rewrite sort_copes_of_rows.
    + fold R. rewrite <- Lc at 1. rewrite <- Lv at 1.
      now rewrite !transpose_transpose, transpose_length by assumption.
    + exact HR.
    + fold R. rewrite <- Lc. now apply transpose_width.
    + fold R. rewrite <- Lv. now apply transpose_width.
    + now apply one_dtype_stored, one_dtype_transpose.
    + now apply one_dtype_stored, one_dtype_transpose.
Qed.

End ReshapeFacts.

Lemma sort_copes_row_major_witness :
  sort_copes (PyList [PyList [PyList [Atom 0; Atom 1]];
                      PyList [PyList [Atom 10; Atom 11]]])
             (PyList [Atom 100; Atom 101]) ["taskA"; "taskB"]
  = ret ([[0; 10]; [1; 11]], [[100]; [101]], 2).
Proof.
  refine (sort_copes_row_major
            (PyList [PyList [PyList [Atom 0; Atom 1]];
                     PyList [PyList [Atom 10; Atom 11]]])
            (PyList [Atom 100; Atom 101]) ["taskA"; "taskB"] _ _ _ _ _).
  - simpl. lia.
  - discriminate.
  - discriminate.
  - reflexivity.
  - reflexivity.
Defined.

Lemma sort_copes_flat_list_witness :
  exists outcopes outvarcopes,
    sort_copes (of_rows [[0; 1]; [10; 11]])
               (of_rows [[100; 101]; [110; 111]]) ["taskA"; "taskB"]
    = ret (outcopes, outvarcopes, 2) /\
    sort_copes (PyList [Atom 0; Atom 1; Atom 10; Atom 11])
               (PyList [Atom 100; Atom 101; Atom 110; Atom 111])
               ["taskA"; "taskB"]
    = ret (outcopes, outvarcopes, 4).
Proof.
  refine (sort_copes_flat_list [[0; 1]; [10; 11]]
            [[100; 101]; [110; 111]] ["taskA"; "taskB"] _ _ _).
  - simpl. lia.
  - repeat constructor.
  - repeat constructor.
Defined.

Lemma sort_copes_keeps_scalars_witness :
  Permutation [0; 10; 20; 1; 11; 21] [0; 1; 10; 11; 20; 21].
Proof.
  refine (proj1 (sort_copes_keeps_scalars
                   (of_rows [[0; 1]; [10; 11]; [20; 21]])
                   (of_rows [[100; 101]; [110; 111]; [120; 121]])
                   ["taskA"; "taskB"]
                   [[0; 10; 20]; [1; 11; 21]]
                   [[100; 110; 120]; [101; 111; 121]] 3 _)).
  reflexivity.
Defined.

Lemma sort_copes_no_contrasts_witness :
  sort_copes (of_rows [[0; 1]]) (of_rows [[100; 101]]) (@nil string)
  = raise ZeroDivisionError.
Proof.
  apply sort_copes_no_contrasts; discriminate.
Defined.

Lemma sort_copes_scalar_many_contrasts_witness :
  fails (sort_copes (Atom 5) (Atom 6) ["taskA"; "taskB"]).
Proof.
  apply (sort_copes_scalar_many_contrasts 5 (Atom 6) ["taskA"; "taskB"]).
  simpl. lia.
Defined.

Lemma sort_copes_twice_witness :
  exists outcopes outvarcopes,
    sort_copes (of_rows [[0; 1]; [10; 11]; [20; 21]])
               (of_rows [[100; 101]; [110; 111]; [120; 121]])
               ["taskA"; "taskB"]
    = ret (outcopes, outvarcopes, 3) /\
    sort_copes (of_rows outcopes) (of_rows outvarcopes)
               ["run1"; "run2"; "run3"]
    = ret ([[0; 1]; [10; 11]; [20; 21]],
           [[100; 101]; [110; 111]; [120; 121]], 2).
Proof.
  refine (sort_copes_twice [[0; 1]; [10; 11]; [20; 21]]
            [[100; 101]; [110; 111]; [120; 121]]
            ["taskA"; "taskB"] ["run1"; "run2"; "run3"] _ _ _ _ _ _ _ _).
  - simpl. lia.
  - simpl. lia.
  - reflexivity.
  - reflexivity.
  - repeat constructor.
  - repeat constructor.
  - intros x y Hx Hy. simpl in Hx, Hy.
    repeat (destruct Hx as [<-|Hx]; [|]); try contradiction;
      repeat (destruct Hy as [<-|Hy]; [|]); try contradiction;
      reflexivity.
  - intros x y Hx Hy. simpl in Hx, Hy.
    repeat (destruct Hx as [<-|Hx]; [|]); try contradiction;
      repeat (destruct Hy as [<-|Hy]; [|]); try contradiction;
      reflexivity.
Defined.

(** ** Grouping by an ordered column *)

Section GroupByOrder.

Context {K Row : Type}.
Variable cmp : K -> K -> comparison.
Variable key : Row -> K.

Hypothesis cmp_eq : forall x y, cmp x y = Eq -> x = y.
Hypothesis cmp_refl : forall x, cmp x x = Eq.
Hypothesis cmp_trans :
  forall x y z, cmp x y = Lt -> cmp y z = Lt -> cmp x z = Lt.
Hypothesis cmp_gt : forall x y, cmp x y = Gt -> cmp y x = Lt.

Let before (x y : K) : Prop := cmp x y = Lt.

Lemma insert_key_In_gen (k x : K) (ks : list K) :
  In x (insert_key cmp k ks) <-> x = k \/ In x ks.
Proof.
  induction ks as [|k' ks IH]; cbn [insert_key In].
  - intuition.
  - destruct (cmp k k') eqn:E; cbn [In].
    + apply cmp_eq in E. subst k'. intuition.
    + intuition.
    + rewrite IH. intuition.
Qed.

Lemma insert_key_sorted_gen (k : K) (ks : list K) :
  StronglySorted before ks -> StronglySorted before (insert_key cmp k ks).
Proof.
  induction 1 as [|k' ks Hs IH Hk']; cbn [insert_key].
  - repeat constructor.
  - destruct (cmp k k') eqn:E.
    + now constructor.
    + constructor; [now constructor|].
      constructor; [exact E|].
      rewrite Forall_forall in *. intros x Hx.
      exact (cmp_trans _ _ _ E (Hk' x Hx)).
    + constructor; [exact IH|].
      rewrite Forall_forall in *. intros x Hx.
      apply insert_key_In_gen in Hx as [->|Hx]; [now apply cmp_gt|auto].
Qed.

Lemma sorted_keys_sorted_gen (rows : list Row) :
  StronglySorted before (sorted_keys cmp key rows).
Proof.
  unfold sorted_keys. induction (map key rows) as [|k ks IH]; cbn.
  - constructor.
  - now apply insert_key_sorted_gen.
Qed.

Lemma sorted_keys_In_gen (rows : list Row) (k : K) :
  In k (sorted_keys cmp key rows) <-> In k (map key rows).
Proof.
  unfold sorted_keys.
  induction (map key rows) as [|k' ks IH]; cbn.
  - reflexivity.
  - rewrite insert_key_In_gen, IH. intuition.
Qed.

Lemma sorted_NoDup (ks : list K) : StronglySorted before ks -> NoDup ks.
Proof.
  induction 1 as [|k ks _ IH Hk]; constructor; [|exact IH].
  intros Hin. rewrite Forall_forall in Hk. specialize (Hk k Hin).
  unfold before in Hk. rewrite cmp_refl in Hk. discriminate.
Qed.

Lemma same_key_true (k : K) (r : Row) :
  same_key cmp key k r = true <-> key r = k.
Proof.
  unfold same_key. split.
  - destruct (cmp (key r) k) eqn:E; try discriminate. intros _.
    now apply cmp_eq.
  - intros <-. now rewrite cmp_refl.
Qed.

(** A row falls into the group of one key only. *)
Lemma groups_of_one_row (x : Row) (ks : list K) :
  NoDup ks -> In (key x) ks ->
  flat_map (fun k => if same_key cmp key k x then [x] else []) ks = [x].
Proof.
  induction 1 as [|k ks Hk Hks IH]; intros Hin; [destruct Hin|].
  cbn [flat_map].
  destruct (same_key cmp key k x) eqn:E.
  - apply same_key_true in E. subst k. cbn [Datatypes.app]. f_equal.
    clear IH Hin. induction ks as [|k ks IH]; [reflexivity|].
    cbn [flat_map].
    destruct (same_key cmp key k x) eqn:E.
    + apply same_key_true in E. subst k. exfalso. apply Hk. now left.
    + cbn [Datatypes.app]. apply IH.
      * intros H. apply Hk. now right.
      * now inversion Hks.
  - cbn [Datatypes.app]. apply IH. destruct Hin as [->|Hin]; [|exact Hin].
    assert (same_key cmp key (key x) x = true) by now apply same_key_true.
    congruence.
Qed.

(** The groups of distinct keys that cover the rows hold every row
    once. *)
Lemma groups_partition (rows : list Row) (ks : list K) :
  NoDup ks -> (forall r, In r rows -> In (key r) ks) ->
  Permutation (flat_map (fun k => filter (same_key cmp key k) rows) ks) rows.
Proof.
  intros Hks. induction rows as [|x rows IH]; intros Hcov.
  - clear Hks Hcov. induction ks as [|k l IHl]; [constructor|].
    cbn [flat_map filter Datatypes.app]. exact IHl.
  - rewrite (flat_map_ext _
               (fun k => (if same_key cmp key k x then [x] else [])
                         ++ filter (same_key cmp key k) rows)%list).
    + rewrite flat_map_app_perm, groups_of_one_row.
      * cbn [Datatypes.app]. constructor. apply IH.
        intros r Hr. apply Hcov. now right.
      * exact Hks.
      * apply Hcov. now left.
    + intros k. cbn [filter]. now destruct (same_key cmp key k x).
Qed.

(** The groups of [groupby] hold every row once. *)
Lemma groupby_partition (rows : list Row) :
  Permutation (flat_map snd (groupby cmp key rows)) rows.
Proof.
  unfold groupby. rewrite flat_map_concat_map, map_map.
  cbn [snd]. rewrite <- flat_map_concat_map.
  apply groups_partition.
  - apply sorted_NoDup, sorted_keys_sorted_gen.
  - intros r Hr. apply sorted_keys_In_gen. now apply in_map.
Qed.

End GroupByOrder.

(** The order of [String.compare]. *)
Lemma ascii_compare_refl (a : ascii) : Ascii.compare a a = Eq.
Proof. apply N.compare_refl. Qed.

Lemma ascii_compare_trans (a b c : ascii) :
  Ascii.compare a b = Lt -> Ascii.compare b c = Lt ->
  Ascii.compare a c = Lt.
Proof.
  unfold Ascii.compare. rewrite !N.compare_lt_iff. apply N.lt_trans.
Qed.

Lemma string_compare_refl (s : string) : String.compare s s = Eq.
Proof.
  induction s as [|c s IH]; [reflexivity|].
  cbn [String.compare]. now rewrite ascii_compare_refl.
Qed.

Lemma string_compare_trans (s1 s2 s3 : string) :
  String.compare s1 s2 = Lt -> String.compare s2 s3 = Lt ->
  String.compare s1 s3 = Lt.
Proof.
  revert s2 s3. induction s1 as [|c1 s1 IH]; intros [|c2 s2] [|c3 s3];
    cbn [String.compare]; try discriminate; try reflexivity.
  destruct (Ascii.compare c1 c2) eqn:E12; try discriminate;
    destruct (Ascii.compare c2 c3) eqn:E23; try discriminate.
  - apply Ascii.compare_eq_iff in E12, E23. subst.
    rewrite ascii_compare_refl. apply IH.
  - apply Ascii.compare_eq_iff in E12. subst. now rewrite E23.
  - apply Ascii.compare_eq_iff in E23. subst. now rewrite E12.
  - now rewrite (ascii_compare_trans _ _ _ E12 E23).
Qed.

Lemma string_compare_gt (s1 s2 : string) :
  String.compare s1 s2 = Gt -> String.compare s2 s1 = Lt.
Proof.
  intros H. rewrite String.compare_antisym, H. reflexivity.
Qed.

(** ** The bunch of a run *)

Section BunchFacts.

Context {F : Type}.
Implicit Types (rows : list (event F)).

Lemma fold_add_condition (gs : list (string * list (event F)))
      (acc : Bunch F) :
  fold_left add_condition gs acc
  = {| conditions := (conditions acc ++ map fst gs)%list;
       onsets := (onsets acc
                  ++ map (fun g => map ev_onset (snd g)) gs)%list;
       durations := (durations acc
                     ++ map (fun g => map ev_duration (snd g)) gs)%list;
       amplitudes := (amplitudes acc
                      ++ map (fun g => map ev_amplitude (snd g)) gs)%list |}.
Proof.
  revert acc. induction gs as [|[c cond_data] gs IH]; intros acc.
  - cbn [fold_left map]. rewrite !app_nil_r. now destruct acc.
  - cbn [fold_left]. rewrite IH.
    cbn [add_condition conditions onsets durations amplitudes map fst snd].
    now rewrite <- !app_assoc.
Qed.

Lemma same_condition (c : string) (e : event F) :
  same_key String.compare ev_condition c e = String.eqb (ev_condition e) c.
Proof.
  destruct (String.eqb_spec (ev_condition e) c) as [E|E].
  - apply same_key_true;
      [apply String.compare_eq_iff|apply string_compare_refl|exact E].
  - destruct (same_key String.compare ev_condition c e) eqn:S;
      [|reflexivity].
    apply same_key_true in S;
      [congruence|apply String.compare_eq_iff|apply string_compare_refl].
Qed.

Lemma bunch_of_run_fields rows :
  let cs := sorted_keys String.compare ev_condition rows in
  bunch_of_run rows
  = {| conditions := cs;
       onsets := map (fun c => map ev_onset (rows_of_condition c rows)) cs;
       durations :=
         map (fun c => map ev_duration (rows_of_condition c rows)) cs;
       amplitudes :=
         map (fun c => map ev_amplitude (rows_of_condition c rows)) cs |}.
Proof.
  cbv zeta. unfold bunch_of_run. rewrite fold_add_condition.
  cbn [conditions onsets durations amplitudes Datatypes.app].
  unfold groupby. rewrite !map_map. cbn [fst snd]. rewrite map_id.
  unfold rows_of_condition.
  f_equal; apply map_ext; intros c; f_equal;
    apply filter_ext; intros e; apply same_condition.
Qed.

(** X13. In the bunch of a run the conditions are those of the rows of
    the run, each once, in ascending order; and entry i of the onsets, of
    the durations and of the amplitudes lists the values of the rows of
    condition i, in the order of the table. *)
Theorem bunch_of_run_aligned rows :
  let b := bunch_of_run rows in
  StronglySorted (fun c c' => String.compare c c' = Lt) (conditions b) /\
  (forall c, In c (conditions b) <->
             exists e, In e rows /\ ev_condition e = c) /\
  onsets b
  = map (fun c => map ev_onset (rows_of_condition c rows)) (conditions b) /\
  durations b
  = map (fun c => map ev_duration (rows_of_condition c rows))
        (conditions b) /\
  amplitudes b
  = map (fun c => map ev_amplitude (rows_of_condition c rows))
        (conditions b).
Proof.
  cbv zeta. rewrite bunch_of_run_fields.
  cbn [conditions onsets durations amplitudes].
  split; [|split; [|repeat split]].
  - apply sorted_keys_sorted_gen.
    + apply String.compare_eq_iff.
    + apply string_compare_trans.
    + apply string_compare_gt.
  - intros c. rewrite sorted_keys_In_gen, in_map_iff.
    + split; intros (e & H1 & H2); eauto.
    + apply String.compare_eq_iff.
Qed.

Lemma concat_condition_values {V} (f : event F -> V) rows :
  Permutation
    (List.concat
       (map (fun c => map f (rows_of_condition c rows))
            (sorted_keys String.compare ev_condition rows)))
    (map f rows).
Proof.
  rewrite <- (map_map (fun c => rows_of_condition c rows) (map f)).
  rewrite <- concat_map. apply Permutation_map.
  rewrite <- flat_map_concat_map.
  rewrite (flat_map_ext _
             (fun c => filter (same_key String.compare ev_condition c) rows)).
  - apply groups_partition.
    + apply String.compare_eq_iff.
    + apply string_compare_refl.
    + apply (sorted_NoDup String.compare).
      * apply string_compare_refl.
      * apply sorted_keys_sorted_gen.
        -- apply String.compare_eq_iff.
        -- apply string_compare_trans.
        -- apply string_compare_gt.
    + intros r Hr. apply sorted_keys_In_gen.
      * apply String.compare_eq_iff.
      * now apply in_map.
  - intros c. unfold rows_of_condition. apply filter_ext. intros e.
    symmetry. apply same_condition.
Qed.

(** X14. The bunch of a run loses no event and repeats none: over all
    conditions, the onsets (durations, amplitudes) are those of the rows
    of the run, each as often as the rows have it; and no condition of
    the bunch has an empty list. *)
Theorem bunch_of_run_keeps_events rows :
  let b := bunch_of_run rows in
  Permutation (List.concat (onsets b)) (map ev_onset rows) /\
  Permutation (List.concat (durations b)) (map ev_duration rows) /\
  Permutation (List.concat (amplitudes b)) (map ev_amplitude rows) /\
  Forall (fun l => l <> []) (onsets b).
Proof.
  cbv zeta. rewrite bunch_of_run_fields.
  cbn [conditions onsets durations amplitudes].
  repeat split; try apply concat_condition_values.
  apply Forall_forall. intros l Hl.
  apply in_map_iff in Hl as (c & <- & Hc).
  apply sorted_keys_In_gen in Hc; [|apply String.compare_eq_iff].
  apply in_map_iff in Hc as (e & He & Hin).
  assert (H : In e (rows_of_condition c rows)).
  { apply filter_In. split; [exact Hin|]. now apply String.eqb_eq. }
  destruct (rows_of_condition c rows); [destruct H|discriminate].
Qed.

End BunchFacts.

(** ** More on the data source *)

Lemma Forall2_map_same {X Y Z} (P : Y -> Z -> Prop) (f : X -> Y)
      (g : X -> Z) (l : list X) :
  (forall x, In x l -> P (f x) (g x)) -> Forall2 P (map f l) (map g l).
Proof.
  induction l as [|x l IH]; intros H; cbn [map]; constructor.
  - apply H. now left.
  - apply IH. intros y Hy. apply H. now right.
Qed.

Lemma existsb_same_members {X} (p : X -> bool) (l l' : list X) :
  (forall x, In x l <-> In x l') -> existsb p l = existsb p l'.
Proof.
  intros H. destruct (existsb p l) eqn:E, (existsb p l') eqn:E';
    try reflexivity.
  - apply existsb_exists in E as (x & Hx & Hp).
    assert (existsb p l' = true)
      by (apply existsb_exists; exists x; split; [now apply H|exact Hp]).
    congruence.
  - apply existsb_exists in E' as (x & Hx & Hp).
    assert (existsb p l = true)
      by (apply existsb_exists; exists x; split; [now apply H|exact Hp]).
    congruence.
Qed.

Section DataSourceFacts.

Context {F : Type}.
Variable int : string -> option Z.
Implicit Types (event_data : list (event F)) (runs : list run).

(** What a success of [get_data] requires. *)
Lemma get_data_returns bids_dir subject_id event_data runs res :
  get_data int bids_dir subject_id event_data runs = ret res ->
  exists sid r0 rest,
    int subject_id = Some sid /\
    filter (of_subject subject_id) runs = r0 :: rest.
Proof.
  unfold get_data. destruct (int subject_id) as [sid|]; [|discriminate].
  cbn [bind ret].
  destruct (filter (of_subject subject_id) runs) as [|r0 rest];
    [discriminate|].
  intros _. eauto.
Qed.

Lemma bunch_of_run_well_formed (rows : list (event F)) :
  rows <> [] -> well_formed_bunch (bunch_of_run rows).
Proof.
  intros Hrows. unfold well_formed_bunch. rewrite bunch_of_run_fields.
  cbn [conditions onsets durations amplitudes].
  assert (Hin : forall c,
             In c (sorted_keys String.compare ev_condition rows) ->
             rows_of_condition c rows <> []).
  { intros c Hc.
    apply sorted_keys_In_gen in Hc; [|apply String.compare_eq_iff].
    apply in_map_iff in Hc as (e & He & Hin).
    assert (H : In e (rows_of_condition c rows)).
    { apply filter_In. split; [exact Hin|]. now apply String.eqb_eq. }
    destruct (rows_of_condition c rows); [destruct H|discriminate]. }
  split; [|split; [|split; [|split]]].
  - destruct rows as [|e rows]; [congruence|]. intros E.
    assert (H : In (ev_condition e)
                   (sorted_keys String.compare ev_condition (e :: rows))).
    { apply sorted_keys_In_gen; [apply String.compare_eq_iff|].
      now left. }
    rewrite E in H. destruct H.
  - apply (sorted_NoDup String.compare).
    + apply string_compare_refl.
    + apply sorted_keys_sorted_gen.
      * apply String.compare_eq_iff.
      * apply string_compare_trans.
      * apply string_compare_gt.
  - rewrite <- (map_id (sorted_keys String.compare ev_condition rows)) at 1.
    apply Forall2_map_same. intros c Hc H.
    apply (Hin c Hc). now destruct (rows_of_condition c rows).
  - apply Forall2_map_same. intros c _. now rewrite !length_map.
  - apply Forall2_map_same. intros c _. now rewrite !length_map.
Qed.

(** X15. Every bunch that [get_data] returns is well formed: it has at
    least one condition and none twice, one list of onsets, durations and
    amplitudes per condition, and for each condition at least one onset
    and as many durations and amplitudes as onsets. *)
Theorem get_data_bunches_well_formed bids_dir subject_id event_data runs
        func bm bunches :
  get_data int bids_dir subject_id event_data runs
  = ret (func, bm, bunches) ->
  Forall well_formed_bunch bunches.
Proof.
  intros H.
  destruct (get_data_returns _ _ _ _ _ H) as (sid & r0 & rest & Hint & E).
  rewrite (get_data_unfold int _ _ _ _ _ _ _ Hint E) in H.
  injection H as _ _ <-.
  apply Forall_forall. intros b Hb.
  apply in_map_iff in Hb as (r & <- & Hr).
  apply bunch_of_run_well_formed.
  apply bunch_runs_In in Hr as [_ (e & He & Hs & Hrun)].
  assert (Hin : In e (rows_of_run sid r event_data)).
  { unfold rows_of_run. apply filter_In. split.
    - apply filter_In. split; [exact He|]. now apply Z.eqb_eq.
    - now apply Z.eqb_eq. }
  intros E'. rewrite E' in Hin. destruct Hin.
Qed.

Lemma sorted_Z_NoDup (ks : list Z) : StronglySorted Z.lt ks -> NoDup ks.
Proof.
  induction 1 as [|k ks _ IH Hk]; constructor; [|exact IH].
  intros Hin. rewrite Forall_forall in Hk. specialize (Hk k Hin). lia.
Qed.

(** X16. [get_data] never returns more bunches than functional runs; it
    returns as many when the manifest gives the subject distinct run
    numbers and the event table has a row of the subject for each of
    them. *)
Theorem get_data_bunches_and_func bids_dir subject_id event_data runs sid
        func bm bunches :
  int subject_id = Some sid ->
  get_data int bids_dir subject_id event_data runs
  = ret (func, bm, bunches) ->
  List.length bunches <= List.length func /\
  (NoDup (map number (filter (of_subject subject_id) runs)) ->
   (forall m, In m runs -> subject m = subject_id ->
      exists e, In e event_data /\ ev_subject e = sid /\
                ev_run e = number m) ->
   List.length bunches = List.length func).
Proof.
  intros Hint H.
  destruct (get_data_returns _ _ _ _ _ H) as (sid' & r0 & rest & Hint' & E).
  assert (sid' = sid) by congruence. subst sid'.
  rewrite (get_data_unfold int _ _ _ _ _ _ _ Hint E) in H.
  assert (L : List.length (map number (filter (of_subject subject_id) runs))
              = S (List.length rest))
    by (rewrite E, length_map; reflexivity).
  injection H as <- _ <-. cbn [map List.length]. rewrite !length_map, <- L.
  assert (Hincl : incl (bunch_runs sid subject_id event_data runs)
                       (map number (filter (of_subject subject_id) runs))).
  { intros r Hr. apply bunch_runs_In in Hr as [(m & Hm & Hs & <-) _].
    apply in_map, filter_In. split; [exact Hm|]. now apply String.eqb_eq. }
  split.
  - apply NoDup_incl_length; [|exact Hincl].
    apply sorted_Z_NoDup, bunch_runs_sorted.
  - intros Hnd Hev. apply Permutation_length, NoDup_Permutation.
    + apply sorted_Z_NoDup, bunch_runs_sorted.
    + exact Hnd.
    + intros r. split; [apply Hincl|]. intros Hr.
      apply in_map_iff in Hr as (m & <- & Hm).
      apply filter_In in Hm as [Hm Hs]. apply String.eqb_eq in Hs.
      apply bunch_runs_In. split; [eauto|]. now apply Hev.
Qed.

(** X17. The order of the manifest has no effect on the bunches: two
    manifests with the same entries in another order give the same
    list of bunches, or both none. *)
Theorem get_data_bunches_manifest_order bids_dir subject_id event_data
        runs runs' :
  Permutation runs runs' ->
  subject_info (get_data int bids_dir subject_id event_data runs)
  = subject_info (get_data int bids_dir subject_id event_data runs').
Proof.
  intros HP.
  assert (Hmem : forall m, In m (filter (of_subject subject_id) runs) <->
                           In m (filter (of_subject subject_id) runs')).
  { intros m. rewrite !filter_In. split; intros [Hm Hs]; split; auto.
    - now apply (Permutation_in _ HP).
    - now apply (Permutation_in _ (Permutation_sym HP)). }
  destruct (int subject_id) as [sid|] eqn:Hint.
  2:{ unfold get_data. now rewrite Hint. }
  destruct (filter (of_subject subject_id) runs) as [|r0 rest] eqn:E,
           (filter (of_subject subject_id) runs') as [|r0' rest'] eqn:E'.
  - unfold get_data. now rewrite Hint, E, E'.
  - exfalso. apply (Hmem r0'). now left.
  - exfalso. apply (Hmem r0). now left.
  - rewrite (get_data_unfold int _ _ _ _ _ _ _ Hint E).
    rewrite (get_data_unfold int _ _ _ _ _ _ _ Hint E').
    cbn [subject_info ret]. do 2 f_equal.
    unfold bunch_runs. apply filter_ext. intros r.
    apply existsb_same_members. intros n. rewrite E, E', !in_map_iff.
    split; intros (m & <- & Hm); exists m; (split; [reflexivity|]);
      now apply Hmem.
Qed.

End DataSourceFacts.

Lemma get_data_bunches_well_formed_witness :
  Forall well_formed_bunch
    [ {| conditions := ["a"]; onsets := [[1]]; durations := [[1]];
         amplitudes := [[1]] |};
      {| conditions := ["a"; "b"]; onsets := [[3]; [0; 4]];
         durations := [[1]; [1; 1]]; amplitudes := [[1]; [1; 1]] |} ].
Proof.
  apply (get_data_bunches_well_formed int_of_decimal "/data" "01"
           [sample_event 1 2 "b" 0; sample_event 1 1 "a" 1;
            sample_event 2 1 "a" 2; sample_event 1 2 "a" 3;
            sample_event 1 2 "b" 4; sample_event 1 3 "z" 9]
           [sample_run 2 "01" "f2" "m2"; sample_run 1 "01" "f1" "/m1";
            sample_run 1 "02" "g1" "n1"; sample_run 4 "01" "f4" "m4"]
           ["/data/f2"; "/data/f1"; "/data/f4"] "/data/m2").
  reflexivity.
Defined.

Lemma get_data_bunches_and_func_witness : 2 <= 3.
Proof.
  refine (proj1 (get_data_bunches_and_func int_of_decimal "/data" "01"
           [sample_event 1 2 "b" 0; sample_event 1 1 "a" 1;
            sample_event 2 1 "a" 2; sample_event 1 2 "a" 3;
            sample_event 1 2 "b" 4; sample_event 1 3 "z" 9]
           [sample_run 2 "01" "f2" "m2"; sample_run 1 "01" "f1" "/m1";
            sample_run 1 "02" "g1" "n1"; sample_run 4 "01" "f4" "m4"]
           1%Z
           ["/data/f2"; "/data/f1"; "/data/f4"] "/data/m2"
           [ {| conditions := ["a"]; onsets := [[1]]; durations := [[1]];
                amplitudes := [[1]] |};
             {| conditions := ["a"; "b"]; onsets := [[3]; [0; 4]];
                durations := [[1]; [1; 1]];
                amplitudes := [[1]; [1; 1]] |} ] _ _)).
  - reflexivity.
  - reflexivity.
Defined.

Lemma get_data_bunches_manifest_order_witness :
  subject_info
    (get_data int_of_decimal "/data" "01"
       [sample_event 1 2 "b" 0; sample_event 1 1 "a" 1]
       [sample_run 2 "01" "f2" "m2"; sample_run 1 "01" "f1" "m1"])
  = subject_info
      (get_data int_of_decimal "/data" "01"
         [sample_event 1 2 "b" 0; sample_event 1 1 "a" 1]
         [sample_run 1 "01" "f1" "m1"; sample_run 2 "01" "f2" "m2"]).
Proof.
  apply get_data_bunches_manifest_order. apply perm_swap.
Defined.

(** ** Joined paths *)

Lemma prefix_slashes (x : ascii) (s : string) :
  String.prefix "//" (String x s) = Ascii.eqb x "/" && startswith_slash s.
Proof.
  cbn [String.prefix].
  destruct (ascii_dec "/" x) as [<-|N].
  - destruct s as [|y s]; [reflexivity|].
    cbn [String.prefix startswith_slash].
    destruct (ascii_dec "/" y) as [<-|N]; [now destruct s|].
    destruct (Ascii.eqb_spec y "/"); [congruence|reflexivity].
  - destruct (Ascii.eqb_spec x "/"); [congruence|reflexivity].
Qed.

Lemma occurs_slashes_cons (x : ascii) (s : string) :
  occurs "//" (String x s)
  = (Ascii.eqb x "/" && startswith_slash s) || occurs "//" s.
Proof. cbn [occurs]. now rewrite prefix_slashes. Qed.

Lemma startswith_slash_append (a c : string) :
  startswith_slash (a ++ c)
  = if String.eqb a "" then startswith_slash c else startswith_slash a.
Proof. now destruct a. Qed.

Lemma endswith_slash_cons (x : ascii) (a : string) :
  a <> "" -> endswith_slash (String x a) = endswith_slash a.
Proof. destruct a; [congruence|reflexivity]. Qed.

(** Two slashes in a row of a concatenation are in one of the parts or
    at the seam. *)
Lemma occurs_slashes_append (a c : string) :
  occurs "//" (a ++ c)
  = occurs "//" a || occurs "//" c
    || (endswith_slash a && startswith_slash c).
Proof.
  induction a as [|x a IH].
  - cbn [append occurs String.prefix endswith_slash andb orb].
    now rewrite orb_false_r.
  - cbn [append]. rewrite !occurs_slashes_cons, IH.
    rewrite startswith_slash_append.
    destruct a as [|y a].
    + change (occurs "//" "") with false.
      change (endswith_slash "") with false.
      change (startswith_slash "") with false.
      change (endswith_slash (String x "")) with (Ascii.eqb x "/").
      change (String.eqb "" "") with true.
      destruct (Ascii.eqb x "/"), (startswith_slash c), (occurs "//" c);
        reflexivity.
    + change (endswith_slash (String x (String y a)))
        with (endswith_slash (String y a)).
      change (String.eqb (String y a) "") with false.
      destruct (Ascii.eqb x "/"), (startswith_slash (String y a)),
               (occurs "//" (String y a)), (occurs "//" c),
               (endswith_slash (String y a)), (startswith_slash c);
        reflexivity.
Qed.

(** Joining two paths without doubled slashes gives a path without
    doubled slashes. *)
Lemma path_join_single_slashes (a b : string) :
  single_slashes a -> single_slashes b -> single_slashes (path_join a b).
Proof.
  unfold single_slashes, path_join. intros Ha Hb.
  destruct (startswith_slash b) eqn:Sb; [exact Hb|].
  destruct (String.eqb_spec a "") as [->|Hne]; [exact Hb|].
  cbn [orb]. destruct (endswith_slash a) eqn:Ea.
  - now rewrite occurs_slashes_append, Ha, Hb, Sb, Ea.
  - rewrite occurs_slashes_append, Ha, Ea.
    change ("/" ++ b) with (String "/" b).
    rewrite occurs_slashes_cons, Hb, Sb. reflexivity.
Qed.

Section PathFacts.

Context {F : Type}.
Variable int : string -> option Z.

(** X18. [get_data] joins without doubling a slash: when neither
    [bids_dir] nor the paths of the manifest have two slashes in a row,
    neither have the functional paths and the brainmask returned. *)
Theorem get_data_single_slashes bids_dir subject_id
        (event_data : list (event F)) (runs : list run) func bm bunches :
  single_slashes bids_dir ->
  (forall m, In m runs ->
     single_slashes (func_path m) /\ single_slashes (mask_path m)) ->
  get_data int bids_dir subject_id event_data runs
  = ret (func, bm, bunches) ->
  Forall single_slashes func /\ single_slashes bm.
Proof.
  intros Hb Hruns H.
  destruct (get_data_returns _ _ _ _ _ _ H) as (sid & r0 & rest & Hint & E).
  rewrite (get_data_unfold int _ _ _ _ _ _ _ Hint E) in H.
  unfold ret in H.
  assert (Hf : func = map (path_join bids_dir) (map func_path (r0 :: rest)))
    by congruence.
  assert (Hm : bm = path_join bids_dir (mask_path r0)) by congruence.
  subst func bm. clear H.
  assert (Hin : forall m, In m (r0 :: rest) -> In m runs).
  { intros m Hm. rewrite <- E in Hm. now apply filter_In in Hm. }
  split.
  - rewrite map_map. apply Forall_forall. intros f Hf.
    apply in_map_iff in Hf as (m & <- & Hm).
    apply path_join_single_slashes; [exact Hb|].
    now apply Hruns, Hin.
  - apply path_join_single_slashes; [exact Hb|].
    apply Hruns, Hin. now left.
Qed.

End PathFacts.

Lemma get_data_single_slashes_witness :
  Forall single_slashes ["/data/sub-01/f2.nii.gz"; "/abs/f1.nii.gz"]
  /\ single_slashes "/data/sub-01/m2.nii.gz".
Proof.
  apply (get_data_single_slashes int_of_decimal "/data/" "01"
           [sample_event 1 2 "b" 0]
           [sample_run 2 "01" "sub-01/f2.nii.gz" "sub-01/m2.nii.gz";
            sample_run 1 "01" "/abs/f1.nii.gz" "m1.nii.gz"]
           ["/data/sub-01/f2.nii.gz"; "/abs/f1.nii.gz"]
           "/data/sub-01/m2.nii.gz"
           [ {| conditions := ["b"]; onsets := [[0]]; durations := [[1]];
                amplitudes := [[1]] |} ]).
  - reflexivity.
  - intros m [<-|[<-|[]]]; split; reflexivity.
  - reflexivity.
Defined.

(** ** The events that matter *)

Lemma sorted_same_members (l l' : list Z) :
  StronglySorted Z.lt l -> StronglySorted Z.lt l' ->
  (forall x, In x l <-> In x l') -> l = l'.
Proof.
  intros Hl. revert l'.
  induction Hl as [|a l Hs IH Ha]; intros l' Hl' Hmem.
  - destruct l' as [|b l']; [reflexivity|].
    exfalso. apply (Hmem b). now left.
  - destruct Hl' as [|b l' Hs' Hb].
    { exfalso. apply (Hmem a). now left. }
    rewrite Forall_forall in Ha, Hb.
    assert (a = b).
    { destruct (proj1 (Hmem a) (or_introl eq_refl)) as [E|Hin];
        [now symmetry|].
      destruct (proj2 (Hmem b) (or_introl eq_refl)) as [E|Hin'];
        [exact E|].
      specialize (Ha b Hin'). specialize (Hb a Hin). lia. }
    subst b. f_equal. apply IH; [exact Hs'|].
    intros x. split; intros Hx.
    + destruct (proj1 (Hmem x) (or_intror Hx)) as [E|Hin]; [|exact Hin].
      specialize (Ha x Hx). lia.
    + destruct (proj2 (Hmem x) (or_intror Hx)) as [E|Hin]; [|exact Hin].
      specialize (Hb x Hx). lia.
Qed.

Lemma filter_filter {X} (p q : X -> bool) (l : list X) :
  filter p (filter q l) = filter (fun x => q x && p x) l.
Proof.
  induction l as [|x l IH]; [reflexivity|].
  cbn [filter]. destruct (q x); cbn [filter andb]; now rewrite IH.
Qed.

Section RelevantEvents.

Context {F : Type}.
Variable int : string -> option Z.
Implicit Types (event_data : list (event F)) (runs : list run).

Lemma listed_run_true subject_id runs r :
  listed_run subject_id runs r = true <->
  exists m, In m runs /\ subject m = subject_id /\ number m = r.
Proof.
  unfold listed_run. rewrite existsb_exists. split.
  - intros (n & Hn & E). apply Z.eqb_eq in E. subst n.
    apply in_map_iff in Hn as (m & Hm & Hin).
    apply filter_In in Hin as [Hin Hs]. apply String.eqb_eq in Hs. eauto.
  - intros (m & Hm & Hs & <-). exists (number m).
    split; [|apply Z.eqb_refl].
    apply in_map, filter_In. split; [exact Hm|]. now apply String.eqb_eq.
Qed.

(** X19. [get_data] reads the event table only through the rows of the
    subject whose run the manifest lists for the subject: dropping every
    other row changes nothing in the result. *)
Theorem get_data_relevant_events bids_dir subject_id event_data runs sid :
  int subject_id = Some sid ->
  get_data int bids_dir subject_id
           (filter (fun e => Z.eqb (ev_subject e) sid
                             && listed_run subject_id runs (ev_run e))
                   event_data) runs
  = get_data int bids_dir subject_id event_data runs.
Proof.
  intros Hint.
  set (kept := filter _ event_data).
  destruct (filter (of_subject subject_id) runs) as [|r0 rest] eqn:E.
  { unfold get_data. now rewrite Hint, E. }
  rewrite !(get_data_unfold int _ _ _ _ _ _ _ Hint E).
  do 2 f_equal.
  assert (Hks : bunch_runs sid subject_id kept runs
                = bunch_runs sid subject_id event_data runs).
  { apply sorted_same_members; try apply bunch_runs_sorted.
    intros r. rewrite !bunch_runs_In. split.
    - intros [Hm (e & He & Hs & Hr)]. split; [exact Hm|].
      apply filter_In in He as [He _]. eauto.
    - intros [Hm (e & He & Hs & Hr)]. split; [exact Hm|].
      exists e. split; [|auto]. apply filter_In. split; [exact He|].
      apply andb_true_iff. split; [now apply Z.eqb_eq|].
      rewrite Hr. now apply listed_run_true. }
  rewrite Hks. apply map_ext_in. intros r Hr. f_equal.
  apply bunch_runs_In in Hr as [Hm _]. apply listed_run_true in Hm.
  unfold rows_of_run, kept. rewrite !filter_filter.
  apply filter_ext. intros e.
  destruct (Z.eqb_spec (ev_run e) r) as [->|]; [rewrite Hm|];
    destruct (Z.eqb (ev_subject e) sid); try reflexivity;
    now destruct (listed_run subject_id runs (ev_run e)).
Qed.

End RelevantEvents.

Lemma get_data_relevant_events_witness :
  get_data int_of_decimal "/data" "01"
    [sample_event 1 2 "b" 0; sample_event 1 1 "a" 1]
    [sample_run 2 "01" "f2" "m2"; sample_run 1 "01" "f1" "m1"]
  = get_data int_of_decimal "/data" "01"
      [sample_event 1 2 "b" 0; sample_event 1 1 "a" 1;
       sample_event 2 1 "a" 2; sample_event 1 3 "c" 3]
      [sample_run 2 "01" "f2" "m2"; sample_run 1 "01" "f1" "m1"].
Proof.
  refine (get_data_relevant_events int_of_decimal "/data" "01"
            [sample_event 1 2 "b" 0; sample_event 1 1 "a" 1;
             sample_event 2 1 "a" 2; sample_event 1 3 "c" 3]
            [sample_run 2 "01" "f2" "m2"; sample_run 1 "01" "f1" "m1"]
            1%Z _).
  reflexivity.
Defined.
